(** * The naive hybrid-space recommender of baybe

    A shallow embedding of [baybe/recommenders/naive.py]
    ([NaiveHybridSpaceRecommender]) and of the exceptions of
    [baybe/exceptions.py], with the properties of the orchestrator proved
    over it.

    Python objects that are shared by reference (the two sub-recommenders)
    live in a store indexed by object identity; the orchestrator holds
    identities, as the Python object holds references.  Exceptions, the
    random state, the warnings issued and the calls made to collaborators
    are threaded through a state-and-exception monad. *)

From Stdlib Require Import ZArith QArith String List Bool Lia.
From stdpp Require Import base list strings.

Local Open Scope Z_scope.
Set Warnings "-register-all".

(** ** Exceptions *)

(** The five exceptions of [baybe/exceptions.py] and the Python built-ins
    that the orchestrator or the pandas operations it uses can raise. *)
Inductive Exn : Type :=
| NotEnoughPointsLeftError
| NoMCAcquisitionFunctionError
| IncompatibleSearchSpaceError
| EmptySearchSpaceError
| NothingToSimulateError
| NotImplementedError
| KeyError
| ValueError
| InvalidIndexError
| OtherError (name : string).

Inductive Result (A : Type) : Type :=
| Ok (a : A)
| Raise (e : Exn).
Arguments Ok {A} a.
Arguments Raise {A} e.

(** ** Tables *)

(** A cell is a number or a label; [None] is a missing value (NaN). *)
Inductive Scalar : Type :=
| Num (x : Q)
| Label (s : string).

Definition Cell : Type := option Scalar.

(** A pandas data frame: the row labels, the column names and the rows. *)
Record DataFrame : Type := mkDataFrame {
  index : list Z;
  columns : list string;
  rows : list (list Cell)
}.

Definition nrows (df : DataFrame) : nat := length (rows df).
Definition ncols (df : DataFrame) : nat := length (columns df).

(** Every row has one cell per column and every row has a label. *)
Definition frame_ok (df : DataFrame) : Prop :=
  length (index df) = length (rows df) /\
  Forall (fun r => length r = length (columns df)) (rows df).

Definition no_missing (df : DataFrame) : Prop :=
  Forall (fun r => Forall (fun c : Cell => c <> None) r) (rows df).

(** The rows of a frame that carry label [l], with their label. *)
Fixpoint rows_at (ix : list Z) (rs : list (list Cell)) (l : Z)
  : list (Z * list Cell) :=
  match ix, rs with
  | i :: ix', r :: rs' =>
      if Z.eqb i l then (i, r) :: rows_at ix' rs' l else rows_at ix' rs' l
  | _, _ => []
  end.

Definition has_label (ix : list Z) (l : Z) : bool := existsb (Z.eqb l) ix.

(** [df.loc[labels]]: the rows with the given labels, in the order of
    [labels]; a label absent from the index raises [KeyError]. *)
Definition df_loc (df : DataFrame) (labels : list Z) : Result DataFrame :=
  if forallb (has_label (index df)) labels then
    let picked := flat_map (rows_at (index df) (rows df)) labels in
    Ok {| index := map fst picked;
          columns := columns df;
          rows := map snd picked |}
  else Raise KeyError.

(** [df.index = ix]: pandas refuses an index of another length. *)
Definition set_index (df : DataFrame) (ix : list Z) : Result DataFrame :=
  if Nat.eqb (length ix) (nrows df) then
    Ok {| index := ix; columns := columns df; rows := rows df |}
  else Raise ValueError.

Definition nan_row (n : nat) : list Cell := repeat None n.

Fixpoint row_at (ix : list Z) (rs : list (list Cell)) (l : Z)
  : option (list Cell) :=
  match ix, rs with
  | i :: ix', r :: rs' => if Z.eqb i l then Some r else row_at ix' rs' l
  | _, _ => None
  end.

Fixpoint zip_rows (a b : list (list Cell)) : list (list Cell) :=
  match a, b with
  | r :: a', q :: b' => (r ++ q) :: zip_rows a' b'
  | _, _ => []
  end.

Fixpoint nodupb (l : list Z) : bool :=
  match l with
  | [] => true
  | x :: l' => negb (has_label l' x) && nodupb l'
  end.

Definition index_eqb (a b : list Z) : bool :=
  Nat.eqb (length a) (length b)
  && forallb (fun p => Z.eqb (fst p) (snd p)) (combine a b).

(** [pd.concat([a, b], axis=1)]: frames with equal indexes are glued row
    by row; otherwise the frames are joined on the union of their labels
    and the cells a frame has no row for are missing; a frame with a
    repeated label cannot be joined. *)
Definition concat_axis1 (a b : DataFrame) : Result DataFrame :=
  if index_eqb (index a) (index b) then
    Ok {| index := index a;
          columns := columns a ++ columns b;
          rows := zip_rows (rows a) (rows b) |}
  else if nodupb (index a) && nodupb (index b) then
    let labels :=
      index a ++ filter (fun l => negb (has_label (index a) l)) (index b) in
    let side (df : DataFrame) (l : Z) :=
      match row_at (index df) (rows df) l with
      | Some r => r
      | None => nan_row (ncols df)
      end in
    Ok {| index := labels;
          columns := columns a ++ columns b;
          rows := map (fun l => side a l ++ side b l) labels |}
  else Raise InvalidIndexError.

(** Tensors: [to_tensor] keeps the values of a frame as a 2-d block,
    [unsqueeze(-2)] inserts a unit axis before the last one. *)
Definition Tensor : Type := list (list (list Cell)).

Definition to_tensor (df : DataFrame) : list (list Cell) := rows df.

Definition unsqueeze_m2 (t : list (list Cell)) : Tensor :=
  map (fun r => [r]) t.

(** ** Search spaces *)

Inductive SearchSpaceType : Type := DISCRETE | CONTINUOUS | EITHER | HYBRID.

Record SubspaceDiscrete : Type := mkDiscrete {
  exp_rep : DataFrame;
  comp_rep : DataFrame
}.

Record SubspaceContinuous : Type := mkContinuous {
  param_names : list string;
  bounds : list (Q * Q)
}.

Record SearchSpace : Type := mkSearchSpace {
  discrete : SubspaceDiscrete;
  continuous : SubspaceContinuous;
  type : SearchSpaceType
}.

Definition SearchSpaceType_eqb (a b : SearchSpaceType) : bool :=
  match a, b with
  | DISCRETE, DISCRETE | CONTINUOUS, CONTINUOUS
  | EITHER, EITHER | HYBRID, HYBRID => true
  | _, _ => false
  end.

(** ** Acquisition functions and recommender objects *)

(** Object identities: positions in the store of recommender objects, and
    serial numbers handed out to acquisition-function objects as they are
    created. *)
Definition loc : Type := nat.

(** A fitted surrogate is opaque to the orchestrator. *)
Definition Surrogate : Type := N.

(** An acquisition function is either one built by a recommender from its
    surrogate, or a [PartialAcquisitionFunction] around the value that was
    read from a recommender's [_acquisition_function] attribute. *)
Inductive AcquisitionFunction : Type :=
| BaseAcquisitionFunction (oid : nat) (model : Surrogate)
| PartialAcquisitionFunction (oid : nat)
    (acqf : option AcquisitionFunction)
    (pinned_part : Tensor)
    (pin_discrete : bool).

Definition oid_of (a : AcquisitionFunction) : nat :=
  match a with
  | BaseAcquisitionFunction o _ => o
  | PartialAcquisitionFunction o _ _ _ => o
  end.

Definition is_partial (a : AcquisitionFunction) : bool :=
  match a with
  | BaseAcquisitionFunction _ _ => false
  | PartialAcquisitionFunction _ _ _ _ => true
  end.

(** The classes a [PureRecommender] instance can belong to, as far as the
    two [isinstance] tests of [recommend] can tell. *)
Inductive RecommenderClass : Type :=
| BayesianRecommender
| NonPredictiveRecommender
| OtherPureRecommender.

Definition RecommenderClass_eqb (a b : RecommenderClass) : bool :=
  match a, b with
  | BayesianRecommender, BayesianRecommender
  | NonPredictiveRecommender, NonPredictiveRecommender
  | OtherPureRecommender, OtherPureRecommender => true
  | _, _ => false
  end.

Module Pure.
(** A [PureRecommender] instance: its class, the two policy flags of the
    base class and the private acquisition-function attribute. *)
Record t : Type := mk {
  cls : RecommenderClass;
  allow_repeated_recommendations : bool;
  allow_recommending_already_measured : bool;
  _acquisition_function : option AcquisitionFunction
}.

Definition isinstance (r : t) (c : RecommenderClass) : bool :=
  RecommenderClass_eqb (cls r) c.

(** The object after [r._acquisition_function = a]. *)
Definition with_acquisition_function (r : t)
    (a : option AcquisitionFunction) : t :=
  {| cls := cls r;
     allow_repeated_recommendations := allow_repeated_recommendations r;
     allow_recommending_already_measured :=
       allow_recommending_already_measured r;
     _acquisition_function := a |}.
End Pure.

(** The orchestrator object. *)
Record NaiveHybridSpaceRecommender : Type := mkNaive {
  allow_repeated_recommendations : bool;
  allow_recommending_already_measured : bool;
  disc_recommender : loc;
  cont_recommender : loc
}.

(** ** State, exceptions and calls to collaborators *)

(** The random state of numpy/torch is an opaque bit pattern. *)
Definition RNG : Type := N.

(** The calls the orchestrator makes to its collaborators, with the
    arguments that matter to the caller. *)
Inductive Event : Type :=
| CallSamplesRandom (n : nat)
| CallGetCandidates (allow_repeated allow_measured : bool)
| CallSetupAcquisitionFunction (r : loc)
| CallRecommendDiscrete (r : loc) (acqf : option AcquisitionFunction)
    (batch_size : Z)
| CallSample (n : nat)
| CallRecommendContinuous (r : loc) (acqf : option AcquisitionFunction)
    (batch_size : Z).

Record State : Type := mkState {
  heap : list Pure.t;
  rng : RNG;
  next_oid : nat;
  calls : list Event;
  warnings : list string
}.

Definition M (A : Type) : Type := State -> Result A * State.

Definition ret {A} (a : A) : M A := fun s => (Ok a, s).

Definition raise {A} (e : Exn) : M A := fun s => (Raise e, s).

Definition bind {A B} (c : M A) (k : A -> M B) : M B :=
  fun s =>
    match c s with
    | (Ok a, s') => k a s'
    | (Raise e, s') => (Raise e, s')
    end.

Notation "'let*' x ':=' c 'in' k" := (bind c (fun x => k))
  (at level 10, x pattern, c at level 100, k at level 200).

(** Lifting a pure computation that may raise. *)
Definition lift {A} (r : Result A) : M A := fun s => (r, s).

(** Lifting a computation that draws from the random state. *)
Definition with_rng {A} (f : RNG -> Result A * RNG) : M A :=
  fun s =>
    let (r, g) := f (rng s) in
    (r, {| heap := heap s; rng := g; next_oid := next_oid s;
           calls := calls s; warnings := warnings s |}).

Definition log (e : Event) : M unit :=
  fun s =>
    (Ok tt, {| heap := heap s; rng := rng s; next_oid := next_oid s;
               calls := calls s ++ [e]; warnings := warnings s |}).

(** [warnings.warn(msg)] *)
Definition warn (msg : string) : M unit :=
  fun s =>
    (Ok tt, {| heap := heap s; rng := rng s; next_oid := next_oid s;
               calls := calls s; warnings := warnings s ++ [msg] |}).

(** Reading the object behind a reference.  A reference always has an
    object behind it in Python; [OtherError] is what the model answers
    for a store that does not hold one. *)
Definition deref (l : loc) : M Pure.t :=
  fun s =>
    match heap s !! l with
    | Some r => (Ok r, s)
    | None => (Raise (OtherError "dangling reference"), s)
    end.

(** Creating a recommender object; its identity is its position. *)
Definition alloc (r : Pure.t) : M loc :=
  fun s =>
    (Ok (length (heap s)),
     {| heap := heap s ++ [r]; rng := rng s; next_oid := next_oid s;
        calls := calls s; warnings := warnings s |}).

(** [obj._acquisition_function = a] *)
Definition set_acquisition_function (l : loc) (a : option AcquisitionFunction)
  : M unit :=
  fun s =>
    match heap s !! l with
    | Some r =>
        (Ok tt,
         {| heap := <[ l := Pure.with_acquisition_function r a ]> (heap s);
            rng := rng s; next_oid := next_oid s;
            calls := calls s; warnings := warnings s |})
    | None => (Raise (OtherError "dangling reference"), s)
    end.

(** A new object identity for an acquisition function. *)
Definition fresh_oid : M nat :=
  fun s =>
    (Ok (next_oid s),
     {| heap := heap s; rng := rng s; next_oid := S (next_oid s);
        calls := calls s; warnings := warnings s |}).

(** The constructor call [PartialAcquisitionFunction(acqf=..., pinned_part=...,
    pin_discrete=...)]: a new object on every call. *)
Definition new_PartialAcquisitionFunction
    (acqf : option AcquisitionFunction) (pinned_part : Tensor)
    (pin_discrete : bool) : M AcquisitionFunction :=
  let* o := fresh_oid in
  ret (PartialAcquisitionFunction o acqf pinned_part pin_discrete).

(** ** Collaborators *)

(** What the orchestrator calls but does not define: the subspaces'
    sampling and candidate retrieval, the sub-recommenders' fitting and
    search routines and public [recommend], and the random choice behind
    [DataFrame.sample].  The search routines are methods: they receive the
    recommender object as it is at the time of the call, with its current
    acquisition function. *)
Class Collaborators : Type := {
  samples_random :
    SubspaceContinuous -> nat -> RNG -> Result DataFrame * RNG;
  get_candidates :
    SubspaceDiscrete -> bool -> bool -> Result (DataFrame * DataFrame);
  fit_surrogate :
    Pure.t -> SearchSpace -> option DataFrame -> option DataFrame ->
    RNG -> Result Surrogate * RNG;
  _recommend_discrete :
    Pure.t -> SubspaceDiscrete -> DataFrame -> Z -> RNG ->
    Result (list Z) * RNG;
  _recommend_continuous :
    Pure.t -> SubspaceContinuous -> Z -> RNG -> Result DataFrame * RNG;
  pure_recommend :
    loc -> SearchSpace -> Z -> option DataFrame -> option DataFrame ->
    M DataFrame;
  random_choice : nat -> RNG -> nat * RNG
}.

Section Orchestrator.
Context {collab : Collaborators}.

(** [searchspace.continuous.samples_random(n)] *)
Definition call_samples_random (sub : SubspaceContinuous) (n : nat)
  : M DataFrame :=
  let* _ := log (CallSamplesRandom n) in
  with_rng (samples_random sub n).

(** [searchspace.discrete.get_candidates(allow_repeated_recommendations=...,
    allow_recommending_already_measured=...)] *)
Definition call_get_candidates (sub : SubspaceDiscrete)
    (allow_repeated allow_measured : bool) : M (DataFrame * DataFrame) :=
  let* _ := log (CallGetCandidates allow_repeated allow_measured) in
  lift (get_candidates sub allow_repeated allow_measured).

(** Modelled from the spec: [BayesianRecommender.setup_acquisition_function]
    is defined in baybe/recommenders/pure/bayesian/base.py, which is not
    among the sources; it "rebuilds internal scoring state", that is, it
    fits the surrogate on the space and the training data and stores a
    newly built acquisition function in the recommender. *)
Definition setup_acquisition_function (l : loc) (searchspace : SearchSpace)
    (train_x train_y : option DataFrame) : M unit :=
  let* _ := log (CallSetupAcquisitionFunction l) in
  let* r := deref l in
  let* model := with_rng (fit_surrogate r searchspace train_x train_y) in
  let* o := fresh_oid in
  set_acquisition_function l (Some (BaseAcquisitionFunction o model)).

(** [rec._recommend_discrete(subspace_discrete=..., candidates_comp=...,
    batch_size=...)] *)
Definition call_recommend_discrete (l : loc) (sub : SubspaceDiscrete)
    (candidates_comp : DataFrame) (batch_size : Z) : M (list Z) :=
  let* r := deref l in
  let* _ := log (CallRecommendDiscrete l (Pure._acquisition_function r)
                   batch_size) in
  with_rng (_recommend_discrete r sub candidates_comp batch_size).

(** [rec._recommend_continuous(subspace_continuous, batch_size)] *)
Definition call_recommend_continuous (l : loc) (sub : SubspaceContinuous)
    (batch_size : Z) : M DataFrame :=
  let* r := deref l in
  let* _ := log (CallRecommendContinuous l (Pure._acquisition_function r)
                   batch_size) in
  with_rng (_recommend_continuous r sub batch_size).

(** [df.sample(1)]: one row of the frame, chosen by the random state;
    pandas raises [ValueError] when the frame has no row. *)
Definition df_sample_one (df : DataFrame) : M DataFrame :=
  let* _ := log (CallSample 1) in
  match nrows df with
  | O => raise ValueError
  | S _ =>
      let* k := with_rng (fun g => let (k, g') := random_choice (nrows df) g in
                                   (Ok (k mod nrows df)%nat, g')) in
      ret {| index := firstn 1 (skipn k (index df));
             columns := columns df;
             rows := firstn 1 (skipn k (rows df)) |}
  end.

(** ** Construction *)

(** [attrs.evolve(inst, **changes)]: a new instance of the same class,
    built by the class's initialiser from the fields of [inst] and the
    changes given as keywords ([None] for a keyword that is not given);
    the private acquisition-function attribute is not an initialiser
    argument and starts out empty.  [inst] itself is not touched. *)
Definition evolve (inst : loc)
    (allow_repeated_recommendations_kw : option bool)
    (allow_recommending_already_measured_kw : option bool) : M loc :=
  let* r := deref inst in
  alloc {| Pure.cls := Pure.cls r;
           Pure.allow_repeated_recommendations :=
             default (Pure.allow_repeated_recommendations r)
                     allow_repeated_recommendations_kw;
           Pure.allow_recommending_already_measured :=
             default (Pure.allow_recommending_already_measured r)
                     allow_recommending_already_measured_kw;
           Pure._acquisition_function := None |}.

Definition flag_warning (name : string) : string :=
  ("The value of '" ++ name ++
   "' differs from what is specified in the discrete recommender. " ++
   "The value of the discrete recommender will be ignored.")%string.

(** [self.disc_recommender = l] *)
Definition set_disc_recommender (self : NaiveHybridSpaceRecommender) (l : loc)
  : NaiveHybridSpaceRecommender :=
  {| allow_repeated_recommendations := allow_repeated_recommendations self;
     allow_recommending_already_measured :=
       allow_recommending_already_measured self;
     disc_recommender := l;
     cont_recommender := cont_recommender self |}.

(** [NaiveHybridSpaceRecommender.__attrs_post_init__] *)
Definition __attrs_post_init__ (self : NaiveHybridSpaceRecommender)
  : M NaiveHybridSpaceRecommender :=
  let flag := allow_recommending_already_measured self in
  let* d := deref (disc_recommender self) in
  let* self :=
    if negb (Bool.eqb flag (Pure.allow_recommending_already_measured d)) then
      let* _ := warn (flag_warning "allow_recommending_already_measured") in
      let* l := evolve (disc_recommender self) None (Some flag) in
      ret (set_disc_recommender self l)
    else ret self in
  let flag := allow_repeated_recommendations self in
  let* d := deref (disc_recommender self) in
  if negb (Bool.eqb flag (Pure.allow_repeated_recommendations d)) then
    let* _ := warn (flag_warning "allow_repeated_recommendations") in
    let* l := evolve (disc_recommender self) (Some flag) None in
    ret (set_disc_recommender self l)
  else ret self.

(** The initialiser generated by attrs: the fields are stored, then the
    post-init hook runs, once. *)
Definition __init__ (allow_repeated allow_measured : bool)
    (disc cont : loc) : M NaiveHybridSpaceRecommender :=
  __attrs_post_init__
    {| allow_repeated_recommendations := allow_repeated;
       allow_recommending_already_measured := allow_measured;
       disc_recommender := disc;
       cont_recommender := cont |}.

(** ** Recommendation *)

(** [NaiveHybridSpaceRecommender.recommend] *)
Definition recommend (self : NaiveHybridSpaceRecommender)
    (searchspace : SearchSpace) (batch_size : Z)
    (train_x train_y : option DataFrame) : M DataFrame :=
  let* d := deref (disc_recommender self) in
  let is_bayesian_recommender := Pure.isinstance d BayesianRecommender in
  let is_np_recommender := Pure.isinstance d NonPredictiveRecommender in
  if negb is_bayesian_recommender && negb is_np_recommender then
    raise NotImplementedError
  else
    let degenerate_recommender :=
      if SearchSpaceType_eqb (type searchspace) DISCRETE then
        Some (disc_recommender self)
      else if SearchSpaceType_eqb (type searchspace) CONTINUOUS then
        Some (cont_recommender self)
      else None in
    match degenerate_recommender with
    | Some r => pure_recommend r searchspace batch_size train_x train_y
    | None =>
        let* cont_part := call_samples_random (continuous searchspace) 1 in
        let cont_part := unsqueeze_m2 (to_tensor cont_part) in
        let* cands :=
          call_get_candidates (discrete searchspace) true true in
        let candidates_comp := snd cands in
        let* _ :=
          if is_bayesian_recommender then
            let* _ := setup_acquisition_function (disc_recommender self)
                        searchspace train_x train_y in
            let* dr := deref (disc_recommender self) in
            let* disc_acqf_part :=
              new_PartialAcquisitionFunction
                (Pure._acquisition_function dr) cont_part false in
            set_acquisition_function (disc_recommender self)
              (Some disc_acqf_part)
          else ret tt in
        let* disc_rec_idx :=
          call_recommend_discrete (disc_recommender self)
            (discrete searchspace) candidates_comp batch_size in
        let* selected :=
          lift (df_loc (comp_rep (discrete searchspace)) disc_rec_idx) in
        let* disc_part := df_sample_one selected in
        let disc_part := unsqueeze_m2 (to_tensor disc_part) in
        let* _ := setup_acquisition_function (cont_recommender self)
                    searchspace train_x train_y in
        let* cr := deref (cont_recommender self) in
        let* cont_acqf_part :=
          new_PartialAcquisitionFunction
            (Pure._acquisition_function cr) disc_part true in
        let* _ := set_acquisition_function (cont_recommender self)
                    (Some cont_acqf_part) in
        let* rec_cont :=
          call_recommend_continuous (cont_recommender self)
            (continuous searchspace) batch_size in
        let* rec_disc_exp :=
          lift (df_loc (exp_rep (discrete searchspace)) disc_rec_idx) in
        let* rec_cont := lift (set_index rec_cont (index rec_disc_exp)) in
        let* rec_exp := lift (concat_axis1 rec_disc_exp rec_cont) in
        ret rec_exp
    end.

End Orchestrator.

(** ** The hybrid cycle, block by block

    The hybrid branch of [recommend] cut at its two search calls.  These
    are the same statements in the same order; [recommend_hybrid_blocks]
    below proves that [recommend] is their composition. *)

Section Blocks.
Context {collab : Collaborators}.

(** Lines 119-145: the continuous point is sampled, the candidates are
    fetched and a Bayesian discrete recommender gets its pinned
    acquisition function.  Yields [candidates_comp]. *)
Definition pin_continuous_point (self : NaiveHybridSpaceRecommender)
    (searchspace : SearchSpace) (train_x train_y : option DataFrame)
    (is_bayesian_recommender : bool) : M DataFrame :=
  let* cont_part := call_samples_random (continuous searchspace) 1 in
  let cont_part := unsqueeze_m2 (to_tensor cont_part) in
  let* cands := call_get_candidates (discrete searchspace) true true in
  let* _ :=
    if is_bayesian_recommender then
      let* _ := setup_acquisition_function (disc_recommender self)
                  searchspace train_x train_y in
      let* dr := deref (disc_recommender self) in
      let* disc_acqf_part :=
        new_PartialAcquisitionFunction
          (Pure._acquisition_function dr) cont_part false in
      set_acquisition_function (disc_recommender self) (Some disc_acqf_part)
    else ret tt in
  ret (snd cands).

(** Lines 156-168: one of the selected discrete rows is sampled and the
    continuous recommender gets its pinned acquisition function. *)
Definition pin_discrete_point (self : NaiveHybridSpaceRecommender)
    (searchspace : SearchSpace) (train_x train_y : option DataFrame)
    (disc_rec_idx : list Z) : M unit :=
  let* selected :=
    lift (df_loc (comp_rep (discrete searchspace)) disc_rec_idx) in
  let* disc_part := df_sample_one selected in
  let disc_part := unsqueeze_m2 (to_tensor disc_part) in
  let* _ := setup_acquisition_function (cont_recommender self)
              searchspace train_x train_y in
  let* cr := deref (cont_recommender self) in
  let* cont_acqf_part :=
    new_PartialAcquisitionFunction
      (Pure._acquisition_function cr) disc_part true in
  set_acquisition_function (cont_recommender self) (Some cont_acqf_part).

(** Lines 176-179: the two halves are glued together. *)
Definition glue_solutions (searchspace : SearchSpace)
    (disc_rec_idx : list Z) (rec_cont : DataFrame) : Result DataFrame :=
  match df_loc (exp_rep (discrete searchspace)) disc_rec_idx with
  | Raise e => Raise e
  | Ok rec_disc_exp =>
      match set_index rec_cont (index rec_disc_exp) with
      | Raise e => Raise e
      | Ok rec_cont' => concat_axis1 rec_disc_exp rec_cont'
      end
  end.

Definition hybrid_blocks (self : NaiveHybridSpaceRecommender)
    (searchspace : SearchSpace) (batch_size : Z)
    (train_x train_y : option DataFrame) (is_bayesian_recommender : bool)
  : M DataFrame :=
  let* candidates_comp :=
    pin_continuous_point self searchspace train_x train_y
      is_bayesian_recommender in
  let* disc_rec_idx :=
    call_recommend_discrete (disc_recommender self) (discrete searchspace)
      candidates_comp batch_size in
  let* _ := pin_discrete_point self searchspace train_x train_y
              disc_rec_idx in
  let* rec_cont :=
    call_recommend_continuous (cont_recommender self)
      (continuous searchspace) batch_size in
  lift (glue_solutions searchspace disc_rec_idx rec_cont).

End Blocks.

(** The space is hybrid as far as [recommend] can tell: neither of the two
    degenerate kinds. *)
Definition hybrid_path (searchspace : SearchSpace) : Prop :=
  type searchspace <> DISCRETE /\ type searchspace <> CONTINUOUS.

(** The discrete sub-recommender passes the capability check. *)
Definition supported (r : Pure.t) : Prop :=
  Pure.cls r = BayesianRecommender \/ Pure.cls r = NonPredictiveRecommender.

(** The label [l] names exactly one row of the frame. *)
Definition names_one_row (df : DataFrame) (l : Z) : Prop :=
  length (rows_at (index df) (rows df) l) = 1%nat.

(** A call to the candidate pool asks for every configuration. *)
Definition pool_call_permits_all (e : Event) : Prop :=
  match e with
  | CallGetCandidates allow_repeated allow_measured =>
      allow_repeated = true /\ allow_measured = true
  | _ => True
  end.

(** A computation that adds calls to the log, each of them satisfying
    [P], and leaves the calls logged before in place. *)
Definition logs_only {A} (P : Event -> Prop) (c : M A) : Prop :=
  forall s, exists new, calls (snd (c s)) = calls s ++ new /\ Forall P new.

(** ** A small laboratory

    One discrete parameter with three levels, one continuous parameter
    bounded by 0 and 1, and collaborators simple enough to run. *)
Module Lab.

Definition exp_frame : DataFrame :=
  {| index := [0; 1; 2];
     columns := ["Categorical_1"%string];
     rows := [[Some (Label "level1")]; [Some (Label "level2")];
              [Some (Label "level3")]] |}.

Definition comp_frame : DataFrame :=
  {| index := [0; 1; 2];
     columns := ["Categorical_1_level2"%string;
                 "Categorical_1_level3"%string];
     rows := [[Some (Num 0); Some (Num 0)];
              [Some (Num 1); Some (Num 0)];
              [Some (Num 0); Some (Num 1)]] |}.

Definition disc_sub : SubspaceDiscrete :=
  {| exp_rep := exp_frame; comp_rep := comp_frame |}.

Definition cont_sub : SubspaceContinuous :=
  {| param_names := ["Conti_finite1"%string]; bounds := [(0%Q, 1%Q)] |}.

Definition empty_frame : DataFrame :=
  {| index := []; columns := []; rows := [] |}.

Definition hybrid_space : SearchSpace :=
  {| discrete := disc_sub; continuous := cont_sub; type := HYBRID |}.

Definition continuous_space : SearchSpace :=
  {| discrete := {| exp_rep := empty_frame; comp_rep := empty_frame |};
     continuous := cont_sub;
     type := CONTINUOUS |}.

Definition discrete_space : SearchSpace :=
  {| discrete := disc_sub;
     continuous := {| param_names := []; bounds := [] |};
     type := DISCRETE |}.

(** [n] rows of the continuous parameters, all at the value [v]. *)
Definition cont_rows (sub : SubspaceContinuous) (n : nat) (v : Q)
  : DataFrame :=
  {| index := map Z.of_nat (seq 0 n);
     columns := param_names sub;
     rows := repeat (map (fun _ => Some (Num v)) (param_names sub)) n |}.

(** The discrete search picks the last [batch_size] candidates, last
    first, and has too few points left when asked for more than the
    candidates there are. *)
Definition pick_last (cands : DataFrame) (batch_size : Z)
  : Result (list Z) :=
  if Z.of_nat (nrows cands) <? batch_size then
    Raise NotEnoughPointsLeftError
  else Ok (firstn (Z.to_nat batch_size) (rev (index cands))).

Definition collab : Collaborators := {|
  samples_random sub n g := (Ok (cont_rows sub n (1 # 2)), N.succ g);
  get_candidates sub _ _ := Ok (exp_rep sub, comp_rep sub);
  fit_surrogate r _ _ _ g :=
    match Pure.cls r with
    | BayesianRecommender => (Ok 7%N, g)
    | _ => (Raise (OtherError "AttributeError"), g)
    end;
  _recommend_discrete _ _ cands batch_size g :=
    (pick_last cands batch_size, g);
  _recommend_continuous _ sub batch_size g :=
    (Ok (cont_rows sub (Z.to_nat batch_size) (1 # 4)), g);
  pure_recommend l searchspace batch_size _ _ :=
    ret (cont_rows (continuous searchspace) (Z.to_nat batch_size) (3 # 4));
  random_choice n g := (N.to_nat g, N.succ g)
|}.

Definition bayesian (repeated measured : bool) : Pure.t :=
  {| Pure.cls := BayesianRecommender;
     Pure.allow_repeated_recommendations := repeated;
     Pure.allow_recommending_already_measured := measured;
     Pure._acquisition_function := None |}.

Definition other_pure : Pure.t :=
  {| Pure.cls := OtherPureRecommender;
     Pure.allow_repeated_recommendations := false;
     Pure.allow_recommending_already_measured := true;
     Pure._acquisition_function := None |}.

Definition non_predictive : Pure.t :=
  {| Pure.cls := NonPredictiveRecommender;
     Pure.allow_repeated_recommendations := false;
     Pure.allow_recommending_already_measured := true;
     Pure._acquisition_function := None |}.

(** Objects 0 and 1 are Bayesian, object 2 is of an unsupported class,
    object 3 is non-predictive. *)
Definition s0 : State :=
  {| heap := [bayesian false true; bayesian false true; other_pure;
              non_predictive];
     rng := 0%N; next_oid := 0%nat; calls := []; warnings := [] |}.

Definition naive (disc cont : nat) : NaiveHybridSpaceRecommender :=
  {| allow_repeated_recommendations := false;
     allow_recommending_already_measured := true;
     disc_recommender := disc;
     cont_recommender := cont |}.

End Lab.

(** ** What a hybrid round leaves alone *)

(** Two recommender objects of the same class with the same policy flags:
    they differ at most in their acquisition function. *)
Definition same_config (r r' : Pure.t) : Prop :=
  Pure.cls r' = Pure.cls r /\
  Pure.allow_repeated_recommendations r'
  = Pure.allow_repeated_recommendations r /\
  Pure.allow_recommending_already_measured r'
  = Pure.allow_recommending_already_measured r.

(** From [s] to [s'] no object was created or removed, every object kept
    its class and flags, the objects outside [touched] are what they were,
    no warning was issued and no object identity was handed out twice. *)
Definition only_acqf_changed (touched : loc -> Prop) (s s' : State) : Prop :=
  length (heap s') = length (heap s) /\
  (forall l r,
     heap s !! l = Some r ->
     exists r', heap s' !! l = Some r' /\ same_config r r' /\
                (~ touched l -> r' = r)) /\
  warnings s' = warnings s /\
  (next_oid s <= next_oid s')%nat.

Definition frames {A} (touched : loc -> Prop) (c : M A) : Prop :=
  forall s, only_acqf_changed touched s (snd (c s)).

(** The discrete sub-recommender carries the orchestrator's flags. *)
Definition synced (self : NaiveHybridSpaceRecommender) (s : State) : Prop :=
  exists d,
    heap s !! disc_recommender self = Some d /\
    Pure.allow_repeated_recommendations d
    = allow_repeated_recommendations self /\
    Pure.allow_recommending_already_measured d
    = allow_recommending_already_measured self.

(** ** Collaborators with one routine exchanged *)

(** The same collaborators with another candidate pool. *)
Definition with_pool (c : Collaborators)
    (pool : SubspaceDiscrete -> bool -> bool -> Result (DataFrame * DataFrame))
  : Collaborators :=
  {| samples_random := @samples_random c;
     get_candidates := pool;
     fit_surrogate := @fit_surrogate c;
     _recommend_discrete := @_recommend_discrete c;
     _recommend_continuous := @_recommend_continuous c;
     pure_recommend := @pure_recommend c;
     random_choice := @random_choice c |}.

(** The same collaborators with another discrete search routine. *)
Definition with_discrete_search (c : Collaborators)
    (search : Pure.t -> SubspaceDiscrete -> DataFrame -> Z -> RNG ->
              Result (list Z) * RNG)
  : Collaborators :=
  {| samples_random := @samples_random c;
     get_candidates := @get_candidates c;
     fit_surrogate := @fit_surrogate c;
     _recommend_discrete := search;
     _recommend_continuous := @_recommend_continuous c;
     pure_recommend := @pure_recommend c;
     random_choice := @random_choice c |}.

(** ** Collaborators that misbehave *)
Module Faulty.

(** What goes wrong: the sampler or the pool may raise, and the two search
    routines answer what they are told to. *)
Record Faults : Type := mk {
  sampler_error : option Exn;
  pool_error : option Exn;
  disc_search : Result (list Z);
  cont_search : Result DataFrame
}.

Definition collab (f : Faults) : Collaborators := {|
  samples_random sub n g :=
    match sampler_error f with
    | Some e => (Raise e, N.succ g)
    | None => (Ok (Lab.cont_rows sub n (1 # 2)), N.succ g)
    end;
  get_candidates sub _ _ :=
    match pool_error f with
    | Some e => Raise e
    | None => Ok (exp_rep sub, comp_rep sub)
    end;
  fit_surrogate r _ _ _ g :=
    match Pure.cls r with
    | BayesianRecommender => (Ok 7%N, g)
    | _ => (Raise (OtherError "AttributeError"), g)
    end;
  _recommend_discrete _ _ _ _ g := (disc_search f, g);
  _recommend_continuous _ _ _ g := (cont_search f, g);
  pure_recommend l searchspace batch_size _ _ :=
    ret (Lab.cont_rows (continuous searchspace) (Z.to_nat batch_size)
           (3 # 4));
  random_choice n g := (N.to_nat g, N.succ g)
|}.

(** Nothing goes wrong; the searches answer rows 2 and 1 and two
    continuous rows. *)
Definition none : Faults :=
  {| sampler_error := None; pool_error := None;
     disc_search := Ok [2; 1];
     cont_search := Ok (Lab.cont_rows Lab.cont_sub 2 (1 # 4)) |}.

(** The scenarios of the failure properties. *)
Definition sampler_fails : Faults :=
  {| sampler_error := Some (OtherError "sampler"); pool_error := None;
     disc_search := disc_search none; cont_search := cont_search none |}.

Definition pool_fails : Faults :=
  {| sampler_error := None; pool_error := Some (OtherError "pool");
     disc_search := disc_search none; cont_search := cont_search none |}.

Definition selects (idx : list Z) : Faults :=
  {| sampler_error := None; pool_error := None;
     disc_search := Ok idx; cont_search := cont_search none |}.

Definition cont_answers (r : Result DataFrame) : Faults :=
  {| sampler_error := None; pool_error := None;
     disc_search := disc_search none; cont_search := r |}.

End Faulty.

(** ** The Sphinx configuration, docs/conf.py *)
Module Conf.

(** The built-in exceptions that indexing [sys.argv] can raise. *)
Inductive ArgvError : Type := ValueError | IndexError.

(** [needle in hay] on strings: [needle] occurs somewhere in [hay]. *)
Fixpoint contains (needle hay : string) : bool :=
  String.prefix needle hay
  || match hay with
     | EmptyString => false
     | String _ rest => contains needle rest
     end.

(** [l.index(x)]: the position of the first element equal to [x];
    [None] stands for the [ValueError] of an absent element. *)
Fixpoint list_index (x : string) (l : list string) : option nat :=
  match l with
  | [] => None
  | y :: l' =>
      if String.eqb y x then Some O
      else match list_index x l' with
           | Some i => Some (S i)
           | None => None
           end
  end.

(** Line 241:
    [private_members = "True" in sys.argv[sys.argv.index("-D") + 1]] *)
Definition private_members (argv : list string) : ArgvError + bool :=
  match list_index "-D" argv with
  | None => inl ValueError
  | Some i =>
      match nth_error argv (i + 1) with
      | None => inl IndexError
      | Some a => inr (contains "True" a)
      end
  end.

Definition init_hint : string :=
  "For details on the parameters, see **Public attributes and properties**.".

(** Lines 275-280, [autodoc_process_docstring(app, what, name, obj, options,
    lines)]: the list [lines] is changed in place, the other arguments but
    [name] are not looked at; the function yields the list after the call. *)
Definition autodoc_process_docstring (name : string) (lines : list string)
  : list string :=
  if contains "__init__" name && (0 <? length lines)%nat then
    lines ++ [init_hint]
  else lines.

(** The exceptions that matter to the two [try] blocks of lines 46-70:
    [FileNotFoundError] is an [OSError], which is an [Exception];
    [SystemExit] and [KeyboardInterrupt] are not [Exception]s. *)
Inductive PyException : Type :=
| FileNotFoundError (msg : string)
| OSError (msg : string)
| Exception (msg : string)
| SystemExit (msg : string)
| KeyboardInterrupt.

Definition is_FileNotFoundError (e : PyException) : bool :=
  match e with FileNotFoundError _ => true | _ => false end.

Definition is_Exception (e : PyException) : bool :=
  match e with
  | FileNotFoundError _ | OSError _ | Exception _ => true
  | SystemExit _ | KeyboardInterrupt => false
  end.

(** [str(e)] *)
Definition str (e : PyException) : string :=
  match e with
  | FileNotFoundError m | OSError m | Exception m | SystemExit m => m
  | KeyboardInterrupt => ""
  end.

(** The line feed of the f-string. *)
Definition newline : string := String (Ascii.ascii_of_nat 10) EmptyString.

(** What the two blocks did: the calls made, in order, and the lines
    printed. *)
Inductive Action : Type :=
| Rmtree (path : string)
| ApidocMain (argv : list string)
| Print (text : string).

(** Lines 44-70.  [rmtree] and [apidoc_main] answer [None] when they
    return and the exception they raise otherwise.  The result is the
    exception that escapes, if any, and what was done. *)
Definition run_apidoc
    (rmtree : string -> option PyException)
    (apidoc_main : list string -> option PyException)
    (output_dir baybe_module_dir : string)
  : option PyException * list Action :=
  let removed :=
    match rmtree output_dir with
    | None => None
    | Some e => if is_FileNotFoundError e then None else Some e
    end in
  match removed with
  | Some e => (Some e, [Rmtree output_dir])
  | None =>
      let args := ["--implicit-namespaces"; "-M"; "-T"; "-e"; "-f"; "-o";
                   output_dir]%string in
      let argv := args ++ [baybe_module_dir;
                           (baybe_module_dir ++ "/__init__.py")%string] in
      match apidoc_main argv with
      | None => (None, [Rmtree output_dir; ApidocMain argv])
      | Some e =>
          if is_Exception e then
            (None,
             [Rmtree output_dir; ApidocMain argv;
              Print ("Running `sphinx-apidoc` failed!" ++ newline
                     ++ str e)%string])
          else (Some e, [Rmtree output_dir; ApidocMain argv])
      end
  end.

End Conf.

(** * Properties *)

(** ** Running the monad *)

Lemma bind_ok {A B} (c : M A) (k : A -> M B) s a s1 :
  c s = (Ok a, s1) -> bind c k s = k a s1.
Proof. intros H. unfold bind. now rewrite H. Qed.

Lemma bind_raise {A B} (c : M A) (k : A -> M B) s e s1 :
  c s = (Raise e, s1) -> bind c k s = (Raise e, s1).
Proof. intros H. unfold bind. now rewrite H. Qed.

Lemma bind_ok_inv {A B} (c : M A) (k : A -> M B) s b s2 :
  bind c k s = (Ok b, s2) ->
  exists a s1, c s = (Ok a, s1) /\ k a s1 = (Ok b, s2).
Proof.
  unfold bind. destruct (c s) as [[a|e] s1]; intros H.
  - now exists a, s1.
  - discriminate.
Qed.

Lemma bind_cong {A B} (c1 c2 : M A) (k1 k2 : A -> M B) s :
  c1 s = c2 s ->
  (forall a s1, c2 s = (Ok a, s1) -> k1 a s1 = k2 a s1) ->
  bind c1 k1 s = bind c2 k2 s.
Proof.
  intros Hc Hk. unfold bind. rewrite Hc.
  destruct (c2 s) as [[a|e] s1]; [now apply Hk|reflexivity].
Qed.

Lemma bind_assoc {A B C} (c : M A) (k : A -> M B) (h : B -> M C) s :
  bind (bind c k) h s = bind c (fun a => bind (k a) h) s.
Proof. unfold bind. destruct (c s) as [[a|e] s1]; reflexivity. Qed.

Lemma deref_ok l s r : heap s !! l = Some r -> deref l s = (Ok r, s).
Proof. intros H. unfold deref. now rewrite H. Qed.

Lemma deref_ok_inv l s r s' :
  deref l s = (Ok r, s') -> heap s !! l = Some r /\ s' = s.
Proof.
  unfold deref. destruct (heap s !! l); intros H; inversion H; auto.
Qed.

Lemma not_supported_other (r : Pure.t) :
  ~ supported r -> Pure.cls r = OtherPureRecommender.
Proof.
  unfold supported. destruct (Pure.cls r); intros H; auto; exfalso; auto.
Qed.

Lemma eqb_hybrid_path searchspace :
  hybrid_path searchspace ->
  SearchSpaceType_eqb (type searchspace) DISCRETE = false /\
  SearchSpaceType_eqb (type searchspace) CONTINUOUS = false.
Proof.
  unfold hybrid_path. destruct (type searchspace); simpl; intuition congruence.
Qed.

(** ** Tables *)

Lemma rows_at_In ix rs l p :
  In p (rows_at ix rs l) -> fst p = l /\ In (snd p) rs.
Proof.
  revert rs. induction ix as [|i ix IH]; intros [|r rs]; cbn; try tauto.
  destruct (Z.eqb_spec i l) as [->|Hne]; cbn.
  - intros [<-|Hp]; [auto|]. destruct (IH _ Hp); auto.
  - intros Hp. destruct (IH _ Hp); auto.
Qed.

Lemma rows_at_has_label ix rs l :
  rows_at ix rs l <> [] -> has_label ix l = true.
Proof.
  unfold has_label. revert rs.
  induction ix as [|i ix IH]; intros [|r rs]; cbn; try congruence.
  rewrite (Z.eqb_sym l i).
  destruct (Z.eqb i l); cbn; [reflexivity|]. apply IH.
Qed.

Lemma index_eqb_refl (a : list Z) : index_eqb a a = true.
Proof.
  unfold index_eqb. rewrite Nat.eqb_refl. cbn.
  induction a as [|x a IH]; cbn; [reflexivity|].
  now rewrite Z.eqb_refl.
Qed.

Lemma zip_rows_length (a b : list (list Cell)) :
  length a = length b -> length (zip_rows a b) = length a.
Proof.
  revert b. induction a as [|r a IH]; intros [|q b]; cbn; try congruence.
  intros H. f_equal. apply IH. congruence.
Qed.

Lemma zip_rows_Forall (P Q R : list Cell -> Prop) (a b : list (list Cell)) :
  (forall x y, P x -> Q y -> R (x ++ y)) ->
  Forall P a -> Forall Q b -> Forall R (zip_rows a b).
Proof.
  intros HR Ha. revert b.
  induction Ha as [|r a Hr Ha IH]; intros b Hb; cbn; [constructor|].
  destruct Hb as [|q b Hq Hb]; constructor; auto.
Qed.

(** Labels that name one row each pick one row each, in their order. *)
Lemma picked_one_each ix rs (idx : list Z) :
  Forall (fun l => length (rows_at ix rs l) = 1%nat) idx ->
  map fst (flat_map (rows_at ix rs) idx) = idx /\
  length (flat_map (rows_at ix rs) idx) = length idx /\
  Forall (fun p => In (snd p) rs) (flat_map (rows_at ix rs) idx) /\
  forallb (has_label ix) idx = true.
Proof.
  induction 1 as [|l idx Hl Hidx (IH1 & IH2 & IH3 & IH4)]; cbn.
  - repeat split; constructor.
  - destruct (rows_at ix rs l) as [|p [|p' rest]] eqn:Hp; cbn in Hl;
      try discriminate Hl.
    assert (Hin : In p (rows_at ix rs l)) by (rewrite Hp; now left).
    destruct (rows_at_In _ _ _ _ Hin) as [Hfst Hsnd].
    cbn. repeat split.
    + now rewrite Hfst, IH1.
    + now rewrite IH2.
    + constructor; auto.
    + rewrite IH4, (rows_at_has_label ix rs l); [reflexivity|].
      rewrite Hp. discriminate.
Qed.

Lemma df_loc_one_each df (idx : list Z) :
  Forall (names_one_row df) idx ->
  exists rs,
    df_loc df idx = Ok {| index := idx; columns := columns df; rows := rs |} /\
    length rs = length idx /\
    Forall (fun r => In r (rows df)) rs.
Proof.
  intros H. destruct (picked_one_each _ _ _ H) as (H1 & H2 & H3 & H4).
  exists (map snd (flat_map (rows_at (index df) (rows df)) idx)).
  unfold df_loc. rewrite H4, H1. split; [reflexivity|].
  rewrite length_map, H2. split; [reflexivity|].
  apply Forall_map. exact H3.
Qed.

(** The row [df.sample(1)] takes is a row of the frame. *)
Lemma sample_one_row (rs : list (list Cell)) (k : nat) :
  rs <> [] ->
  exists row,
    firstn 1 (skipn (k mod length rs) rs) = [row] /\ In row rs.
Proof.
  intros Hne.
  assert (Hlt : (k mod length rs < length rs)%nat).
  { apply Nat.mod_upper_bound. destruct rs; [congruence|cbn; lia]. }
  destruct (lookup_lt_is_Some_2 rs _ Hlt) as [row Hrow].
  exists row. split.
  - rewrite <- (take_drop_middle rs _ row Hrow) at 2.
    rewrite skipn_app, skipn_all2 by (rewrite length_take; lia).
    rewrite length_take, Nat.min_l by lia.
    rewrite Nat.sub_diag. reflexivity.
  - apply list_elem_of_In. eapply list_elem_of_lookup_2; eauto.
Qed.

(** One call of a sequence: on an exception both sides stop alike. *)
Ltac run_call c :=
  let a := fresh "a" in
  let e := fresh "e" in
  let s' := fresh "s'" in
  destruct c as [[a|e] s']; cbn beta iota; [|reflexivity].

Ltac run_pure c :=
  let a := fresh "a" in
  let e := fresh "e" in
  destruct c as [a|e]; cbn beta iota; [|reflexivity].

Ltac run_tail :=
  match goal with
  | |- context [call_recommend_discrete ?l ?sub ?c ?b ?s] =>
      run_call (call_recommend_discrete l sub c b s)
  end;
  match goal with
  | |- context [df_loc (comp_rep ?sub) ?idx] =>
      run_pure (df_loc (comp_rep sub) idx)
  end;
  match goal with
  | |- context [df_sample_one ?df ?s] => run_call (df_sample_one df s)
  end;
  match goal with
  | |- context [setup_acquisition_function ?l ?sp ?x ?y ?s] =>
      run_call (setup_acquisition_function l sp x y s)
  end;
  match goal with
  | |- context [deref ?l ?s] => run_call (deref l s)
  end;
  match goal with
  | |- context [new_PartialAcquisitionFunction ?f ?p ?b ?s] =>
      run_call (new_PartialAcquisitionFunction f p b s)
  end;
  match goal with
  | |- context [set_acquisition_function ?l ?f ?s] =>
      run_call (set_acquisition_function l f s)
  end;
  match goal with
  | |- context [call_recommend_continuous ?l ?sub ?b ?s] =>
      run_call (call_recommend_continuous l sub b s)
  end;
  match goal with
  | |- context [df_loc (exp_rep ?sub) ?idx] =>
      run_pure (df_loc (exp_rep sub) idx)
  end;
  match goal with
  | |- context [set_index ?df ?ix] => run_pure (set_index df ix)
  end;
  match goal with
  | |- context [concat_axis1 ?x ?y] => destruct (concat_axis1 x y)
  end;
  reflexivity.

Section Dispatch.
Context {collab : Collaborators}.

(** The capability check comes first and leaves the state as it found it. *)
Lemma recommend_unsupported self searchspace batch_size train_x train_y s d :
  heap s !! disc_recommender self = Some d ->
  Pure.cls d = OtherPureRecommender ->
  recommend self searchspace batch_size train_x train_y s
  = (Raise NotImplementedError, s).
Proof.
  intros Hd Hc. unfold recommend.
  rewrite (bind_ok _ _ _ _ _ (deref_ok _ _ _ Hd)).
  unfold Pure.isinstance. rewrite Hc. reflexivity.
Qed.

(** Past the capability check, a degenerate space is handed over whole. *)
Lemma recommend_degenerate self searchspace batch_size train_x train_y s d :
  heap s !! disc_recommender self = Some d ->
  supported d ->
  type searchspace = DISCRETE \/ type searchspace = CONTINUOUS ->
  recommend self searchspace batch_size train_x train_y s
  = pure_recommend
      (if SearchSpaceType_eqb (type searchspace) DISCRETE
       then disc_recommender self else cont_recommender self)
      searchspace batch_size train_x train_y s.
Proof.
  intros Hd Hs Ht. unfold recommend.
  rewrite (bind_ok _ _ _ _ _ (deref_ok _ _ _ Hd)).
  unfold Pure.isinstance.
  destruct Hs as [Hs|Hs]; rewrite Hs; simpl;
    destruct Ht as [Ht|Ht]; rewrite Ht; reflexivity.
Qed.

(** Past the capability check, a space of no degenerate kind goes through
    the blocks of the hybrid cycle, in order. *)
Lemma recommend_hybrid_blocks self searchspace batch_size train_x train_y s d :
  heap s !! disc_recommender self = Some d ->
  supported d ->
  hybrid_path searchspace ->
  recommend self searchspace batch_size train_x train_y s
  = hybrid_blocks self searchspace batch_size train_x train_y
      (Pure.isinstance d BayesianRecommender) s.
Proof.
  intros Hd Hs Ht. unfold recommend.
  rewrite (bind_ok _ _ _ _ _ (deref_ok _ _ _ Hd)).
  destruct (eqb_hybrid_path _ Ht) as [E1 E2]. rewrite E1, E2.
  assert (Hchk : negb (Pure.isinstance d BayesianRecommender)
                 && negb (Pure.isinstance d NonPredictiveRecommender) = false).
  { unfold Pure.isinstance. destruct Hs as [Hs|Hs]; rewrite Hs; reflexivity. }
  rewrite Hchk.
  unfold hybrid_blocks, pin_continuous_point, pin_discrete_point.
  unfold glue_solutions, lift, ret, bind.
  run_call (call_samples_random (continuous searchspace) 1 s).
  run_call (call_get_candidates (discrete searchspace) true true s').
  destruct (Pure.isinstance d BayesianRecommender); cbn beta iota.
  - match goal with
    | |- context [setup_acquisition_function ?l ?sp ?x ?y ?s] =>
        run_call (setup_acquisition_function l sp x y s)
    end.
    match goal with
    | |- context [deref ?l ?s] => run_call (deref l s)
    end.
    match goal with
    | |- context [new_PartialAcquisitionFunction ?f ?p ?b ?s] =>
        run_call (new_PartialAcquisitionFunction f p b s)
    end.
    match goal with
    | |- context [set_acquisition_function ?l ?f ?s] =>
        run_call (set_acquisition_function l f s)
    end.
    run_tail.
  - run_tail.
Qed.

(** C1 (amended): once the discrete sub-recommender has passed the
    capability check, a DISCRETE space is handed to the discrete
    sub-recommender's [recommend] and a CONTINUOUS space to the continuous
    sub-recommender's, with the same arguments; outcome and final state are
    those of that call, unmodified. *)
Theorem degenerate_dispatch self searchspace batch_size train_x train_y s d :
  heap s !! disc_recommender self = Some d ->
  supported d ->
  (type searchspace = DISCRETE ->
   recommend self searchspace batch_size train_x train_y s
   = pure_recommend (disc_recommender self) searchspace batch_size
       train_x train_y s) /\
  (type searchspace = CONTINUOUS ->
   recommend self searchspace batch_size train_x train_y s
   = pure_recommend (cont_recommender self) searchspace batch_size
       train_x train_y s).
Proof.
  intros Hd Hs. split; intros Ht.
  - rewrite (recommend_degenerate _ _ _ _ _ _ _ Hd Hs (or_introl Ht)).
    now rewrite Ht.
  - rewrite (recommend_degenerate _ _ _ _ _ _ _ Hd Hs (or_intror Ht)).
    now rewrite Ht.
Qed.

(** C4: with a discrete sub-recommender that is neither Bayesian nor
    non-predictive, [recommend] on a discrete or hybrid space raises
    [NotImplementedError] and the state is the one it started from: no call
    was made to the sampler or to the candidate pool and the random state
    has not moved. *)
Theorem capability_mismatch_fails_fast
    self searchspace batch_size train_x train_y s d :
  heap s !! disc_recommender self = Some d ->
  ~ supported d ->
  type searchspace = DISCRETE \/ hybrid_path searchspace ->
  recommend self searchspace batch_size train_x train_y s
  = (Raise NotImplementedError, s) /\
  calls (snd (recommend self searchspace batch_size train_x train_y s))
  = calls s /\
  rng (snd (recommend self searchspace batch_size train_x train_y s))
  = rng s.
Proof.
  intros Hd Hs _.
  rewrite (recommend_unsupported _ _ _ _ _ _ _ Hd (not_supported_other _ Hs)).
  auto.
Qed.

(** C9: the capability check also guards the continuous path, on which the
    discrete sub-recommender is not used: on a CONTINUOUS space, a discrete
    sub-recommender that is neither Bayesian nor non-predictive makes
    [recommend] raise [NotImplementedError]. *)
Theorem capability_check_guards_continuous
    self searchspace batch_size train_x train_y s d :
  heap s !! disc_recommender self = Some d ->
  ~ supported d ->
  type searchspace = CONTINUOUS ->
  recommend self searchspace batch_size train_x train_y s
  = (Raise NotImplementedError, s).
Proof.
  intros Hd Hs _.
  exact (recommend_unsupported _ _ _ _ _ _ _ Hd (not_supported_other _ Hs)).
Qed.

End Dispatch.

Lemma degenerate_dispatch_witness :
  recommend (collab := Lab.collab) (Lab.naive 0 1) Lab.discrete_space 2
    None None Lab.s0
  = pure_recommend (Collaborators := Lab.collab) 0%nat Lab.discrete_space 2
      None None Lab.s0 /\
  recommend (collab := Lab.collab) (Lab.naive 0 1) Lab.continuous_space 2
    None None Lab.s0
  = pure_recommend (Collaborators := Lab.collab) 1%nat Lab.continuous_space 2
      None None Lab.s0.
Proof.
  assert (Hd : heap Lab.s0 !! disc_recommender (Lab.naive 0 1)
               = Some (Lab.bayesian false true)) by reflexivity.
  assert (Hs : supported (Lab.bayesian false true)) by (left; reflexivity).
  split.
  - exact (proj1 (degenerate_dispatch (collab := Lab.collab) (Lab.naive 0 1)
                    Lab.discrete_space 2 None None Lab.s0 _ Hd Hs) eq_refl).
  - exact (proj2 (degenerate_dispatch (collab := Lab.collab) (Lab.naive 0 1)
                    Lab.continuous_space 2 None None Lab.s0 _ Hd Hs) eq_refl).
Defined.

(** C1 as stated fails: on a CONTINUOUS space with a discrete
    sub-recommender of an unsupported class, [recommend] raises where the
    continuous sub-recommender's [recommend] returns a batch. *)
Lemma degenerate_dispatch_counterexample :
  type Lab.continuous_space = CONTINUOUS /\
  recommend (collab := Lab.collab) (Lab.naive 2 1) Lab.continuous_space 3
    None None Lab.s0
  <> pure_recommend (Collaborators := Lab.collab)
       (cont_recommender (Lab.naive 2 1)) Lab.continuous_space 3
       None None Lab.s0.
Proof.
  split; [reflexivity|]. intros H. vm_compute in H. discriminate H.
Qed.

Lemma capability_mismatch_fails_fast_witness :
  recommend (collab := Lab.collab) (Lab.naive 2 1) Lab.hybrid_space 2
    None None Lab.s0
  = (Raise NotImplementedError, Lab.s0) /\
  calls (snd (recommend (collab := Lab.collab) (Lab.naive 2 1)
                Lab.hybrid_space 2 None None Lab.s0))
  = calls Lab.s0 /\
  rng (snd (recommend (collab := Lab.collab) (Lab.naive 2 1)
              Lab.hybrid_space 2 None None Lab.s0))
  = rng Lab.s0.
Proof.
  apply (capability_mismatch_fails_fast (collab := Lab.collab)
           (Lab.naive 2 1) Lab.hybrid_space 2 None None Lab.s0
           Lab.other_pure).
  - reflexivity.
  - intros [H|H]; discriminate H.
  - right. split; discriminate.
Defined.

Lemma capability_check_guards_continuous_witness :
  recommend (collab := Lab.collab) (Lab.naive 2 1) Lab.continuous_space 3
    None None Lab.s0
  = (Raise NotImplementedError, Lab.s0).
Proof.
  apply (capability_check_guards_continuous (collab := Lab.collab)
           (Lab.naive 2 1) Lab.continuous_space 3 None None Lab.s0
           Lab.other_pure).
  - reflexivity.
  - intros [H|H]; discriminate H.
  - reflexivity.
Defined.

(** ** Construction: the flag synchronisation *)

Section Construction.
Context {collab : Collaborators}.


(** The four runs of the hook, by which of the two flags differ. *)
Lemma post_init_cases self s d :
  heap s !! disc_recommender self = Some d ->
  let measured := allow_recommending_already_measured self in
  let repeated := allow_repeated_recommendations self in
  let d1 := {| Pure.cls := Pure.cls d;
               Pure.allow_repeated_recommendations :=
                 Pure.allow_repeated_recommendations d;
               Pure.allow_recommending_already_measured := measured;
               Pure._acquisition_function := None |} in
  let d2 := {| Pure.cls := Pure.cls d;
               Pure.allow_repeated_recommendations := repeated;
               Pure.allow_recommending_already_measured :=
                 Pure.allow_recommending_already_measured d;
               Pure._acquisition_function := None |} in
  let d12 := {| Pure.cls := Pure.cls d;
                Pure.allow_repeated_recommendations := repeated;
                Pure.allow_recommending_already_measured := measured;
                Pure._acquisition_function := None |} in
  let w1 := flag_warning "allow_recommending_already_measured" in
  let w2 := flag_warning "allow_repeated_recommendations" in
  let st h w := {| heap := h; rng := rng s; next_oid := next_oid s;
                   calls := calls s; warnings := w |} in
  __attrs_post_init__ self s =
  match
    negb (Bool.eqb measured (Pure.allow_recommending_already_measured d)),
    negb (Bool.eqb repeated (Pure.allow_repeated_recommendations d))
  with
  | false, false => (Ok self, s)
  | true, false =>
      (Ok (set_disc_recommender self (length (heap s))),
       st (heap s ++ [d1]) (warnings s ++ [w1]))
  | false, true =>
      (Ok (set_disc_recommender self (length (heap s))),
       st (heap s ++ [d2]) (warnings s ++ [w2]))
  | true, true =>
      (Ok (set_disc_recommender self (S (length (heap s)))),
       st ((heap s ++ [d1]) ++ [d12]) ((warnings s ++ [w1]) ++ [w2]))
  end.
Proof.
  intros Hd. cbv zeta.
  unfold __attrs_post_init__, bind, deref at 1. rewrite Hd.
  destruct (Bool.eqb (allow_recommending_already_measured self)
              (Pure.allow_recommending_already_measured d)) eqn:E1;
    cbn [negb].
  - unfold ret, deref. rewrite Hd.
    destruct (Bool.eqb (allow_repeated_recommendations self)
                (Pure.allow_repeated_recommendations d)) eqn:E2;
      cbn [negb]; [reflexivity|].
    unfold evolve, bind, warn, deref, alloc. cbn. rewrite Hd. reflexivity.
  - unfold evolve, bind, warn, deref, alloc, ret. cbn. rewrite Hd. cbn.
    rewrite (list_lookup_middle (heap s) [] _ (length (heap s)) eq_refl).
    cbn.
    destruct (Bool.eqb (allow_repeated_recommendations self)
                (Pure.allow_repeated_recommendations d)) eqn:E2;
      cbn [negb]; [reflexivity|].
    cbn.
    rewrite (list_lookup_middle (heap s) [] _ (length (heap s)) eq_refl).
    cbn. rewrite length_app. cbn. rewrite Nat.add_1_r. reflexivity.
Qed.


(** C10: the hook never changes an object that was in the store before
    it ran: the store only grows, the object supplied as discrete
    sub-recommender is afterwards what it was, and when a flag differs the
    orchestrator's [disc_recommender] refers to an object that did not exist
    before; when no flag differs, orchestrator and store are unchanged. *)
Theorem flag_override_copies self s d :
  heap s !! disc_recommender self = Some d ->
  exists self' s' new,
    __attrs_post_init__ self s = (Ok self', s') /\
    heap s' = heap s ++ new /\
    heap s' !! disc_recommender self = Some d /\
    ((Pure.allow_recommending_already_measured d
      <> allow_recommending_already_measured self \/
      Pure.allow_repeated_recommendations d
      <> allow_repeated_recommendations self) ->
     (length (heap s) <= disc_recommender self')%nat /\
     disc_recommender self' <> disc_recommender self /\
     (disc_recommender self' < length (heap s'))%nat) /\
    (Pure.allow_recommending_already_measured d
     = allow_recommending_already_measured self ->
     Pure.allow_repeated_recommendations d
     = allow_repeated_recommendations self ->
     self' = self /\ s' = s).
Proof.
  intros Hd. pose proof (post_init_cases self s d Hd) as Hrun.
  cbv zeta in Hrun. rewrite Hrun. clear Hrun.
  pose proof (lookup_lt_Some _ _ _ Hd) as Hlt.
  destruct (Bool.eqb (allow_recommending_already_measured self)
              (Pure.allow_recommending_already_measured d)) eqn:E1;
    destruct (Bool.eqb (allow_repeated_recommendations self)
                (Pure.allow_repeated_recommendations d)) eqn:E2;
    cbn [negb].
  - apply eqb_prop in E1, E2. exists self, s, [].
    rewrite app_nil_r. repeat split; auto;
      match goal with H : _ \/ _ |- _ => destruct H; congruence end.
  - apply eqb_false_iff in E2.
    eexists _, _, [_]. split; [reflexivity|]. cbn.
    rewrite length_app. cbn.
    repeat split; auto; try lia; try congruence.
    now apply lookup_app_l_Some.
  - apply eqb_false_iff in E1.
    eexists _, _, [_]. split; [reflexivity|]. cbn.
    rewrite length_app. cbn.
    repeat split; auto; try lia; try congruence.
    now apply lookup_app_l_Some.
  - apply eqb_false_iff in E1.
    eexists _, _, [_; _]. split; [reflexivity|]. cbn.
    rewrite <- app_assoc, length_app. cbn.
    repeat split; auto; try lia; try congruence.
    now apply lookup_app_l_Some.
Qed.

End Construction.


Lemma flag_override_copies_witness :
  exists self' s',
    __attrs_post_init__ (Lab.naive 0 1)
      {| heap := [Lab.bayesian true true; Lab.bayesian false true];
         rng := 0%N; next_oid := 0%nat; calls := []; warnings := [] |}
    = (Ok self', s') /\
    heap s' !! 0%nat = Some (Lab.bayesian true true) /\
    disc_recommender self' <> 0%nat.
Proof.
  destruct (flag_override_copies (Lab.naive 0 1)
              {| heap := [Lab.bayesian true true; Lab.bayesian false true];
                 rng := 0%N; next_oid := 0%nat; calls := [];
                 warnings := [] |}
              (Lab.bayesian true true) eq_refl)
    as (self' & s' & new & H1 & _ & H2 & H3 & _).
  exists self', s'. repeat split; try assumption.
  apply H3. right. discriminate.
Defined.

(** ** The blocks of the hybrid cycle, one by one *)

Section Cycle.
Context {collab : Collaborators}.

Lemma call_samples_random_run sub n s :
  call_samples_random sub n s
  = (fst (samples_random sub n (rng s)),
     {| heap := heap s; rng := snd (samples_random sub n (rng s));
        next_oid := next_oid s; calls := calls s ++ [CallSamplesRandom n];
        warnings := warnings s |}).
Proof.
  unfold call_samples_random, bind, log, with_rng. cbn.
  now destruct (samples_random sub n (rng s)).
Qed.

Lemma call_get_candidates_run sub a b s :
  call_get_candidates sub a b s
  = (get_candidates sub a b,
     {| heap := heap s; rng := rng s; next_oid := next_oid s;
        calls := calls s ++ [CallGetCandidates a b];
        warnings := warnings s |}).
Proof. reflexivity. Qed.

(** What a successful [setup_acquisition_function] has done. *)
Lemma setup_acquisition_function_inv l searchspace train_x train_y s u s1 :
  setup_acquisition_function l searchspace train_x train_y s = (Ok u, s1) ->
  exists r model g,
    heap s !! l = Some r /\
    fit_surrogate r searchspace train_x train_y (rng s) = (Ok model, g) /\
    s1 = {| heap := <[ l := Pure.with_acquisition_function r
                              (Some (BaseAcquisitionFunction (next_oid s)
                                       model)) ]> (heap s);
            rng := g;
            next_oid := S (next_oid s);
            calls := calls s ++ [CallSetupAcquisitionFunction l];
            warnings := warnings s |}.
Proof.
  unfold setup_acquisition_function, bind, log, deref, with_rng, fresh_oid,
    set_acquisition_function. cbn.
  destruct (heap s !! l) as [r|] eqn:Hr; cbn; [|intros Hx; discriminate Hx].
  destruct (fit_surrogate r searchspace train_x train_y (rng s))
    as [[model|e] g] eqn:Hfit; cbn; [|intros Hx; discriminate Hx].
  cbn. rewrite Hr. intros H. inversion H; subst.
  exists r, model, g. auto.
Qed.

(** What the discrete search call does with a recommender that is there. *)
Lemma call_recommend_discrete_run l sub candidates_comp batch_size s r :
  heap s !! l = Some r ->
  call_recommend_discrete l sub candidates_comp batch_size s
  = (fst (_recommend_discrete r sub candidates_comp batch_size (rng s)),
     {| heap := heap s;
        rng := snd (_recommend_discrete r sub candidates_comp batch_size
                      (rng s));
        next_oid := next_oid s;
        calls := calls s ++ [CallRecommendDiscrete l
                               (Pure._acquisition_function r) batch_size];
        warnings := warnings s |}).
Proof.
  intros Hr. unfold call_recommend_discrete, bind, deref, log, with_rng.
  rewrite Hr. cbn.
  destruct (_recommend_discrete r sub candidates_comp batch_size (rng s))
    as [res g]. reflexivity.
Qed.

Lemma call_recommend_discrete_inv l sub candidates_comp batch_size s idx s1 :
  call_recommend_discrete l sub candidates_comp batch_size s = (Ok idx, s1) ->
  exists r g,
    heap s !! l = Some r /\
    _recommend_discrete r sub candidates_comp batch_size (rng s)
    = (Ok idx, g) /\
    s1 = {| heap := heap s; rng := g; next_oid := next_oid s;
            calls := calls s ++ [CallRecommendDiscrete l
                                   (Pure._acquisition_function r) batch_size];
            warnings := warnings s |}.
Proof.
  destruct (heap s !! l) as [r|] eqn:Hr.
  - rewrite (call_recommend_discrete_run _ _ _ _ _ _ Hr).
    destruct (_recommend_discrete r sub candidates_comp batch_size (rng s))
      as [res g] eqn:Hcall. cbn. intros H. inversion H; subst.
    exists r, g. auto.
  - unfold call_recommend_discrete, bind, deref. rewrite Hr.
    intros Hx; discriminate Hx.
Qed.

Lemma call_recommend_continuous_inv l sub batch_size s rec_cont s1 :
  call_recommend_continuous l sub batch_size s = (Ok rec_cont, s1) ->
  exists r g,
    heap s !! l = Some r /\
    _recommend_continuous r sub batch_size (rng s) = (Ok rec_cont, g) /\
    s1 = {| heap := heap s; rng := g; next_oid := next_oid s;
            calls := calls s ++ [CallRecommendContinuous l
                                   (Pure._acquisition_function r) batch_size];
            warnings := warnings s |}.
Proof.
  unfold call_recommend_continuous, bind, deref, log, with_rng.
  destruct (heap s !! l) as [r|] eqn:Hr; cbn; [|intros Hx; discriminate Hx].
  cbn.
  destruct (_recommend_continuous r sub batch_size (rng s)) as [res g]
    eqn:Hcall.
  intros H. inversion H; subst. exists r, g. auto.
Qed.

(** The block that pins the continuous point. *)
Lemma pin_continuous_point_inv self searchspace train_x train_y b s cc s1 :
  pin_continuous_point self searchspace train_x train_y b s = (Ok cc, s1) ->
  exists cp g1 ce,
    samples_random (continuous searchspace) 1 (rng s) = (Ok cp, g1) /\
    get_candidates (discrete searchspace) true true = Ok (ce, cc) /\
    if b then
      exists r model g2,
        heap s !! disc_recommender self = Some r /\
        fit_surrogate r searchspace train_x train_y g1 = (Ok model, g2) /\
        s1 = {| heap :=
                  <[ disc_recommender self :=
                       Pure.with_acquisition_function r
                         (Some (PartialAcquisitionFunction (S (next_oid s))
                                  (Some (BaseAcquisitionFunction (next_oid s)
                                           model))
                                  (unsqueeze_m2 (to_tensor cp)) false)) ]>
                    (heap s);
                rng := g2;
                next_oid := S (S (next_oid s));
                calls := calls s ++ [CallSamplesRandom 1;
                                     CallGetCandidates true true;
                                     CallSetupAcquisitionFunction
                                       (disc_recommender self)];
                warnings := warnings s |}
    else
      s1 = {| heap := heap s; rng := g1; next_oid := next_oid s;
              calls := calls s ++ [CallSamplesRandom 1;
                                   CallGetCandidates true true];
              warnings := warnings s |}.
Proof.
  unfold pin_continuous_point. intros H.
  apply bind_ok_inv in H as (cp & sa & Hcp & H).
  apply bind_ok_inv in H as (cands & sb & Hcands & H).
  apply bind_ok_inv in H as (u & sc & Hprep & H).
  inversion H; subst; clear H.
  unfold call_samples_random, bind, log, with_rng in Hcp. cbn in Hcp.
  destruct (samples_random (continuous searchspace) 1 (rng s))
    as [res g1] eqn:Hs.
  inversion Hcp; subst; clear Hcp.
  unfold call_get_candidates, bind, log, lift in Hcands. cbn in Hcands.
  inversion Hcands as [[Hc Hsb]]; subst sb; clear Hcands.
  exists cp, g1, (fst cands). split; [reflexivity|].
  split; [rewrite Hc; now destruct cands|].
  destruct b.
  - apply bind_ok_inv in Hprep as (u1 & sd & Hsetup & Hprep).
    apply setup_acquisition_function_inv in Hsetup
      as (r & model & g2 & Hr & Hfit & ->).
    cbn in Hr, Hfit.
    pose proof (lookup_lt_Some _ _ _ Hr) as Hlt.
    unfold bind, deref, new_PartialAcquisitionFunction, fresh_oid, ret,
      set_acquisition_function in Hprep. cbn in Hprep.
    rewrite list_lookup_insert_eq in Hprep by exact Hlt. cbn in Hprep.
    rewrite list_lookup_insert_eq in Hprep by exact Hlt.
    inversion Hprep; subst; clear Hprep.
    exists r, model, g2. repeat split; auto.
    rewrite list_insert_insert_eq. rewrite <- !app_assoc. reflexivity.
  - inversion Hprep; subst. cbn. rewrite <- app_assoc. reflexivity.
Qed.

(** [df.sample(1)] hands out the row the random choice names: any row of
    the frame can be the one. *)
Lemma df_sample_one_at df (i : nat) s g :
  (i < nrows df)%nat ->
  random_choice (nrows df) (rng s) = (i, g) ->
  df_sample_one df s
  = (Ok {| index := firstn 1 (skipn i (index df));
           columns := columns df;
           rows := firstn 1 (skipn i (rows df)) |},
     {| heap := heap s; rng := g; next_oid := next_oid s;
        calls := calls s ++ [CallSample 1]; warnings := warnings s |}).
Proof.
  intros Hi Hk. unfold df_sample_one, bind, log, with_rng, ret.
  cbn [fst snd heap rng next_oid calls warnings].
  destruct (nrows df) as [|n] eqn:Hn; [lia|].
  cbn [fst snd heap rng next_oid calls warnings].
  rewrite Hk. rewrite Nat.mod_small by lia. reflexivity.
Qed.

(** The block that pins the discrete point. *)
Lemma pin_discrete_point_inv self searchspace train_x train_y idx s u s1 :
  pin_discrete_point self searchspace train_x train_y idx s = (Ok u, s1) ->
  exists selected row k g1 r model g2,
    df_loc (comp_rep (discrete searchspace)) idx = Ok selected /\
    random_choice (nrows selected) (rng s) = (k, g1) /\
    firstn 1 (skipn (k mod nrows selected) (rows selected)) = [row] /\
    In row (rows selected) /\
    heap s !! cont_recommender self = Some r /\
    fit_surrogate r searchspace train_x train_y g1 = (Ok model, g2) /\
    s1 = {| heap :=
              <[ cont_recommender self :=
                   Pure.with_acquisition_function r
                     (Some (PartialAcquisitionFunction (S (next_oid s))
                              (Some (BaseAcquisitionFunction (next_oid s)
                                       model))
                              [[row]] true)) ]>
                (heap s);
            rng := g2;
            next_oid := S (S (next_oid s));
            calls := calls s ++ [CallSample 1;
                                 CallSetupAcquisitionFunction
                                   (cont_recommender self)];
            warnings := warnings s |}.
Proof.
  unfold pin_discrete_point. intros H.
  apply bind_ok_inv in H as (selected & sa & Hsel & H).
  unfold lift in Hsel. inversion Hsel as [[Hloc Hsa]]; subst sa; clear Hsel.
  apply bind_ok_inv in H as (disc_part & sb & Hsample & H).
  apply bind_ok_inv in H as (u1 & sc & Hsetup & H).
  unfold df_sample_one, bind, log, with_rng, raise, ret in Hsample.
  cbn in Hsample.
  destruct (nrows selected) as [|n] eqn:Hn; [discriminate Hsample|].
  rewrite <- Hn in Hsample.
  destruct (random_choice (nrows selected) (rng s)) as [k g1] eqn:Hk.
  cbn in Hsample. rewrite Hk in Hsample. cbn in Hsample.
  inversion Hsample; subst; clear Hsample.
  assert (Hne : rows selected <> []).
  { unfold nrows in Hn. destruct (rows selected); [discriminate Hn|].
    discriminate. }
  destruct (sample_one_row (rows selected) k Hne) as (row & Hrow & Hin).
  apply setup_acquisition_function_inv in Hsetup
    as (r & model & g2 & Hr & Hfit & ->).
  cbn in Hr, Hfit.
  pose proof (lookup_lt_Some _ _ _ Hr) as Hlt.
  unfold bind, deref, new_PartialAcquisitionFunction, fresh_oid, ret,
    set_acquisition_function in H. cbn in H.
  rewrite list_lookup_insert_eq in H by exact Hlt. cbn in H.
  rewrite list_lookup_insert_eq in H by exact Hlt.
  inversion H; subst; clear H.
  exists selected, row, k, g1, r, model, g2.
  repeat split; auto.
  rewrite list_insert_insert_eq, <- !app_assoc.
  unfold to_tensor, unsqueeze_m2, nrows. cbn. rewrite Hrow. reflexivity.
Qed.

(** A successful run of the hybrid cycle went through every block. *)
Lemma hybrid_blocks_inv self searchspace batch_size train_x train_y b s
    rec_exp s4 :
  hybrid_blocks self searchspace batch_size train_x train_y b s
  = (Ok rec_exp, s4) ->
  exists candidates_comp s1 disc_rec_idx s2 s3 rec_cont,
    pin_continuous_point self searchspace train_x train_y b s
    = (Ok candidates_comp, s1) /\
    call_recommend_discrete (disc_recommender self) (discrete searchspace)
      candidates_comp batch_size s1 = (Ok disc_rec_idx, s2) /\
    pin_discrete_point self searchspace train_x train_y disc_rec_idx s2
    = (Ok tt, s3) /\
    call_recommend_continuous (cont_recommender self)
      (continuous searchspace) batch_size s3 = (Ok rec_cont, s4) /\
    glue_solutions searchspace disc_rec_idx rec_cont = Ok rec_exp.
Proof.
  unfold hybrid_blocks. intros H.
  apply bind_ok_inv in H as (cc & s1 & H1 & H).
  apply bind_ok_inv in H as (idx & s2 & H2 & H).
  apply bind_ok_inv in H as ([] & s3 & H3 & H).
  apply bind_ok_inv in H as (rc & s4' & H4 & H).
  unfold lift in H. inversion H; subst.
  exists cc, s1, idx, s2, s3, rc. auto.
Qed.

(** A run of the hybrid cycle in which every block succeeds. *)
Lemma hybrid_blocks_run self searchspace batch_size train_x train_y b s
    candidates_comp s1 disc_rec_idx s2 s3 rec_cont s4 :
  pin_continuous_point self searchspace train_x train_y b s
  = (Ok candidates_comp, s1) ->
  call_recommend_discrete (disc_recommender self) (discrete searchspace)
    candidates_comp batch_size s1 = (Ok disc_rec_idx, s2) ->
  pin_discrete_point self searchspace train_x train_y disc_rec_idx s2
  = (Ok tt, s3) ->
  call_recommend_continuous (cont_recommender self)
    (continuous searchspace) batch_size s3 = (Ok rec_cont, s4) ->
  hybrid_blocks self searchspace batch_size train_x train_y b s
  = (glue_solutions searchspace disc_rec_idx rec_cont, s4).
Proof.
  intros H1 H2 H3 H4. unfold hybrid_blocks.
  rewrite (bind_ok _ _ _ _ _ H1), (bind_ok _ _ _ _ _ H2),
    (bind_ok _ _ _ _ _ H3), (bind_ok _ _ _ _ _ H4).
  reflexivity.
Qed.

(** Gluing the halves when the selected labels name one row each and the
    continuous half has as many rows. *)
Lemma glue_solutions_one_each searchspace disc_rec_idx rec_cont :
  Forall (names_one_row (exp_rep (discrete searchspace))) disc_rec_idx ->
  nrows rec_cont = length disc_rec_idx ->
  exists rs,
    df_loc (exp_rep (discrete searchspace)) disc_rec_idx
    = Ok {| index := disc_rec_idx;
            columns := columns (exp_rep (discrete searchspace));
            rows := rs |} /\
    length rs = length disc_rec_idx /\
    Forall (fun r => In r (rows (exp_rep (discrete searchspace)))) rs /\
    glue_solutions searchspace disc_rec_idx rec_cont
    = Ok {| index := disc_rec_idx;
            columns := columns (exp_rep (discrete searchspace))
                       ++ columns rec_cont;
            rows := zip_rows rs (rows rec_cont) |}.
Proof.
  intros Hone Hn.
  destruct (df_loc_one_each _ _ Hone) as (rs & Hloc & Hlen & Hin).
  exists rs. repeat split; auto.
  unfold glue_solutions, set_index. rewrite Hloc. cbn.
  rewrite Hn, Nat.eqb_refl. unfold concat_axis1. cbn.
  now rewrite index_eqb_refl.
Qed.

End Cycle.

(** ** What the hybrid cycle logs *)

Section Calls.
Context {collab : Collaborators}.
Variable P : Event -> Prop.

Lemma logs_only_bind {A B} (c : M A) (k : A -> M B) :
  logs_only P c -> (forall a, logs_only P (k a)) -> logs_only P (bind c k).
Proof.
  intros Hc Hk s. unfold bind. destruct (Hc s) as (n1 & E1 & F1).
  destruct (c s) as [[a|e] s1]; cbn in E1.
  - destruct (Hk a s1) as (n2 & E2 & F2). exists (n1 ++ n2).
    rewrite E2, E1, app_assoc. split; [reflexivity|].
    apply Forall_app; auto.
  - exists n1. auto.
Qed.

Lemma logs_only_silent {A} (c : M A) :
  (forall s, calls (snd (c s)) = calls s) -> logs_only P c.
Proof.
  intros H s. exists []. rewrite H, app_nil_r. split; [reflexivity|constructor].
Qed.

Lemma logs_only_log e : P e -> logs_only P (log e).
Proof.
  intros He s. exists [e]. split; [reflexivity|]. repeat constructor; auto.
Qed.

Lemma logs_only_ret {A} (a : A) : logs_only P (ret a).
Proof. now apply logs_only_silent. Qed.

Lemma logs_only_raise {A} e : logs_only P (@raise A e).
Proof. now apply logs_only_silent. Qed.

Lemma logs_only_lift {A} (r : Result A) : logs_only P (lift r).
Proof. now apply logs_only_silent. Qed.

Lemma logs_only_with_rng {A} (f : RNG -> Result A * RNG) :
  logs_only P (with_rng f).
Proof.
  apply logs_only_silent. intros s. unfold with_rng.
  now destruct (f (rng s)).
Qed.

Lemma logs_only_deref l : logs_only P (deref l).
Proof.
  apply logs_only_silent. intros s. unfold deref.
  now destruct (heap s !! l).
Qed.

Lemma logs_only_fresh_oid : logs_only P fresh_oid.
Proof. now apply logs_only_silent. Qed.

Lemma logs_only_set_acquisition_function l a :
  logs_only P (set_acquisition_function l a).
Proof.
  apply logs_only_silent. intros s. unfold set_acquisition_function.
  now destruct (heap s !! l).
Qed.

Lemma logs_only_new_PartialAcquisitionFunction a p b :
  logs_only P (new_PartialAcquisitionFunction a p b).
Proof.
  apply logs_only_bind; [apply logs_only_fresh_oid|].
  intros o. apply logs_only_ret.
Qed.

Hypothesis P_setup : forall l, P (CallSetupAcquisitionFunction l).
Hypothesis P_discrete : forall l a b, P (CallRecommendDiscrete l a b).
Hypothesis P_continuous : forall l a b, P (CallRecommendContinuous l a b).
Hypothesis P_sample : forall n, P (CallSample n).

Lemma logs_only_setup l searchspace train_x train_y :
  logs_only P (setup_acquisition_function l searchspace train_x train_y).
Proof.
  unfold setup_acquisition_function.
  apply logs_only_bind; [apply logs_only_log, P_setup|]. intros _.
  apply logs_only_bind; [apply logs_only_deref|]. intros r.
  apply logs_only_bind; [apply logs_only_with_rng|]. intros model.
  apply logs_only_bind; [apply logs_only_fresh_oid|]. intros o.
  apply logs_only_set_acquisition_function.
Qed.

Lemma logs_only_recommend_discrete l sub candidates_comp batch_size :
  logs_only P (call_recommend_discrete l sub candidates_comp batch_size).
Proof.
  unfold call_recommend_discrete.
  apply logs_only_bind; [apply logs_only_deref|]. intros r.
  apply logs_only_bind; [apply logs_only_log, P_discrete|]. intros _.
  apply logs_only_with_rng.
Qed.

Lemma logs_only_recommend_continuous l sub batch_size :
  logs_only P (call_recommend_continuous l sub batch_size).
Proof.
  unfold call_recommend_continuous.
  apply logs_only_bind; [apply logs_only_deref|]. intros r.
  apply logs_only_bind; [apply logs_only_log, P_continuous|]. intros _.
  apply logs_only_with_rng.
Qed.

Lemma logs_only_sample df : logs_only P (df_sample_one df).
Proof.
  unfold df_sample_one.
  apply logs_only_bind; [apply logs_only_log, P_sample|]. intros _.
  destruct (nrows df); [apply logs_only_raise|].
  apply logs_only_bind; [apply logs_only_with_rng|]. intros k.
  apply logs_only_ret.
Qed.

Lemma logs_only_pin_discrete_point self searchspace train_x train_y idx :
  logs_only P (pin_discrete_point self searchspace train_x train_y idx).
Proof.
  unfold pin_discrete_point.
  apply logs_only_bind; [apply logs_only_lift|]. intros selected.
  apply logs_only_bind; [apply logs_only_sample|]. intros disc_part.
  apply logs_only_bind; [apply logs_only_setup|]. intros _.
  apply logs_only_bind; [apply logs_only_deref|]. intros cr.
  apply logs_only_bind; [apply logs_only_new_PartialAcquisitionFunction|].
  intros a. apply logs_only_set_acquisition_function.
Qed.

(** Everything the cycle does once the candidates have been fetched. *)
Lemma logs_only_after_candidates self searchspace batch_size train_x train_y
    (b : bool) (cont_part : Tensor) (cands : DataFrame * DataFrame) :
  logs_only P
    (bind
       (bind
          (if b then
             let* _ := setup_acquisition_function (disc_recommender self)
                         searchspace train_x train_y in
             let* dr := deref (disc_recommender self) in
             let* disc_acqf_part :=
               new_PartialAcquisitionFunction
                 (Pure._acquisition_function dr) cont_part false in
             set_acquisition_function (disc_recommender self)
               (Some disc_acqf_part)
           else ret tt)
          (fun _ => ret (snd cands)))
       (fun candidates_comp =>
          let* disc_rec_idx :=
            call_recommend_discrete (disc_recommender self)
              (discrete searchspace) candidates_comp batch_size in
          let* _ := pin_discrete_point self searchspace train_x train_y
                      disc_rec_idx in
          let* rec_cont :=
            call_recommend_continuous (cont_recommender self)
              (continuous searchspace) batch_size in
          lift (glue_solutions searchspace disc_rec_idx rec_cont))).
Proof.
  apply logs_only_bind.
  - apply logs_only_bind; [|intros _; apply logs_only_ret].
    destruct b; [|apply logs_only_ret].
    apply logs_only_bind; [apply logs_only_setup|]. intros _.
    apply logs_only_bind; [apply logs_only_deref|]. intros dr.
    apply logs_only_bind; [apply logs_only_new_PartialAcquisitionFunction|].
    intros a. apply logs_only_set_acquisition_function.
  - intros cc.
    apply logs_only_bind; [apply logs_only_recommend_discrete|]. intros idx.
    apply logs_only_bind; [apply logs_only_pin_discrete_point|]. intros _.
    apply logs_only_bind; [apply logs_only_recommend_continuous|]. intros rc.
    apply logs_only_lift.
Qed.

End Calls.

Section Hybrid.
Context {collab : Collaborators}.

(** The pool calls in the log of a round on the hybrid path: each of them
    has both flags true, and one is there as soon as the continuous point
    has been sampled. *)
Lemma pool_calls_logged self searchspace batch_size train_x train_y s d :
  heap s !! disc_recommender self = Some d ->
  supported d ->
  hybrid_path searchspace ->
  exists new,
    calls (snd (recommend self searchspace batch_size train_x train_y s))
    = calls s ++ new /\
    Forall pool_call_permits_all new /\
    (forall a b, In (CallGetCandidates a b) new -> a = true /\ b = true) /\
    (forall cp g,
       samples_random (continuous searchspace) 1 (rng s) = (Ok cp, g) ->
       In (CallGetCandidates true true) new).
Proof.
  intros Hd Hs Ht.
  rewrite (recommend_hybrid_blocks _ _ _ _ _ _ _ Hd Hs Ht).
  assert (Hgoal : forall new,
            Forall pool_call_permits_all new ->
            forall a b, In (CallGetCandidates a b) new -> a = true /\ b = true).
  { intros new HF a b Hin. rewrite Forall_forall in HF.
    exact (HF _ (proj2 (list_elem_of_In _ _) Hin)). }
  unfold hybrid_blocks, pin_continuous_point.
  rewrite bind_assoc. unfold bind at 1.
  rewrite call_samples_random_run.
  destruct (samples_random (continuous searchspace) 1 (rng s))
    as [[cp|e] g1] eqn:Hsample; cbn [fst snd].
  - rewrite bind_assoc. unfold bind at 1.
    rewrite call_get_candidates_run.
    destruct (get_candidates (discrete searchspace) true true)
      as [cands|e] eqn:Hcands.
    + match goal with
      | |- context [calls (snd (?c ?st))] =>
          destruct (logs_only_after_candidates pool_call_permits_all
                      (fun _ => I) (fun _ _ _ => I) (fun _ _ _ => I)
                      (fun _ => I) self searchspace batch_size train_x
                      train_y (Pure.isinstance d BayesianRecommender)
                      (unsqueeze_m2 (to_tensor cp)) cands st)
            as (rest & Hcalls & Hrest)
      end.
      exists ([CallSamplesRandom 1; CallGetCandidates true true] ++ rest).
      assert (HF : Forall pool_call_permits_all
                     ([CallSamplesRandom 1; CallGetCandidates true true]
                      ++ rest)).
      { apply Forall_app. split; [|exact Hrest].
        repeat constructor. }
      split; [|split; [exact HF|split; [exact (Hgoal _ HF)|]]].
      * rewrite Hcalls. cbn. now rewrite <- !app_assoc.
      * intros _ _ _. right. now left.
    + exists [CallSamplesRandom 1; CallGetCandidates true true].
      assert (HF : Forall pool_call_permits_all
                     [CallSamplesRandom 1; CallGetCandidates true true])
        by (repeat constructor).
      split; [|split; [exact HF|split; [exact (Hgoal _ HF)|]]].
      * cbn. now rewrite <- app_assoc.
      * intros _ _ _. right. now left.
  - exists [CallSamplesRandom 1].
    assert (HF : Forall pool_call_permits_all [CallSamplesRandom 1])
      by (repeat constructor).
    split; [reflexivity|split; [exact HF|split; [exact (Hgoal _ HF)|]]].
    intros cp g Hx. discriminate Hx.
Qed.

(** C8: when the hybrid cycle has reached the discrete search and the
    search routine raises, [recommend] raises that very exception; the
    state is the one the search routine was called in, with the call
    logged once and the random state as the routine left it: no second
    attempt, no smaller batch, no continuous search, no other exception. *)
Theorem discrete_search_failure_propagates
    self searchspace batch_size train_x train_y s d candidates_comp s1 d1 e g :
  heap s !! disc_recommender self = Some d ->
  supported d ->
  hybrid_path searchspace ->
  pin_continuous_point self searchspace train_x train_y
    (Pure.isinstance d BayesianRecommender) s = (Ok candidates_comp, s1) ->
  heap s1 !! disc_recommender self = Some d1 ->
  _recommend_discrete d1 (discrete searchspace) candidates_comp batch_size
    (rng s1) = (Raise e, g) ->
  recommend self searchspace batch_size train_x train_y s
  = (Raise e,
     {| heap := heap s1; rng := g; next_oid := next_oid s1;
        calls := calls s1 ++ [CallRecommendDiscrete (disc_recommender self)
                                (Pure._acquisition_function d1) batch_size];
        warnings := warnings s1 |}).
Proof.
  intros Hd Hs Ht Hpin Hd1 Hsearch.
  rewrite (recommend_hybrid_blocks _ _ _ _ _ _ _ Hd Hs Ht).
  unfold hybrid_blocks. rewrite (bind_ok _ _ _ _ _ Hpin).
  apply bind_raise.
  rewrite (call_recommend_discrete_run _ _ _ _ _ _ Hd1), Hsearch.
  reflexivity.
Qed.

End Hybrid.

Lemma discrete_search_failure_propagates_witness :
  fst (recommend (collab := Lab.collab) (Lab.naive 0 1) Lab.hybrid_space 5
         None None Lab.s0)
  = Raise NotEnoughPointsLeftError.
Proof.
  erewrite (discrete_search_failure_propagates (collab := Lab.collab)
              (Lab.naive 0 1) Lab.hybrid_space 5 None None Lab.s0
              (Lab.bayesian false true)).
  - reflexivity.
  - reflexivity.
  - left. reflexivity.
  - split; discriminate.
  - vm_compute. reflexivity.
  - vm_compute. reflexivity.
  - vm_compute. reflexivity.
Defined.

Section Pinning.
Context {collab : Collaborators}.

(** A successful hybrid [recommend], step by step: the values that went
    from one block to the next and the state at the end. *)
Lemma hybrid_run_inv self searchspace batch_size train_x train_y s d
    rec_exp s' :
  heap s !! disc_recommender self = Some d ->
  supported d ->
  hybrid_path searchspace ->
  recommend self searchspace batch_size train_x train_y s = (Ok rec_exp, s') ->
  exists candidates_comp s1 d1 disc_rec_idx g2 selected row r model rec_cont,
    pin_continuous_point self searchspace train_x train_y
      (Pure.isinstance d BayesianRecommender) s = (Ok candidates_comp, s1) /\
    heap s1 !! disc_recommender self = Some d1 /\
    _recommend_discrete d1 (discrete searchspace) candidates_comp batch_size
      (rng s1) = (Ok disc_rec_idx, g2) /\
    df_loc (comp_rep (discrete searchspace)) disc_rec_idx = Ok selected /\
    In row (rows selected) /\
    heap s1 !! cont_recommender self = Some r /\
    glue_solutions searchspace disc_rec_idx rec_cont = Ok rec_exp /\
    let cont_acqf_part :=
      PartialAcquisitionFunction (S (next_oid s1))
        (Some (BaseAcquisitionFunction (next_oid s1) model)) [[row]] true in
    heap s' = <[ cont_recommender self :=
                   Pure.with_acquisition_function r (Some cont_acqf_part) ]>
                (heap s1) /\
    next_oid s' = S (S (next_oid s1)) /\
    warnings s' = warnings s1 /\
    calls s' = calls s1 ++
               [CallRecommendDiscrete (disc_recommender self)
                  (Pure._acquisition_function d1) batch_size;
                CallSample 1;
                CallSetupAcquisitionFunction (cont_recommender self);
                CallRecommendContinuous (cont_recommender self)
                  (Some cont_acqf_part) batch_size].
Proof.
  intros Hd Hs Ht Hrun.
  rewrite (recommend_hybrid_blocks _ _ _ _ _ _ _ Hd Hs Ht) in Hrun.
  apply hybrid_blocks_inv in Hrun
    as (cc & s1 & idx & s2 & s3 & rc & Hpin & Hdisc & Hpin2 & Hcont & Hglue).
  apply call_recommend_discrete_inv in Hdisc as (d1 & g2 & Hd1 & Hsearch & ->).
  apply pin_discrete_point_inv in Hpin2
    as (selected & row & k & g3 & r & model & g4 & Hsel & Hk & Hrow & Hin
        & Hr & Hfit & ->).
  cbn in Hr, Hk, Hfit.
  apply call_recommend_continuous_inv in Hcont as (r' & g5 & Hr' & Hc & ->).
  cbn in Hr', Hc.
  rewrite list_lookup_insert_eq in Hr' by exact (lookup_lt_Some _ _ _ Hr).
  inversion Hr'; subst r'; clear Hr'.
  exists cc, s1, d1, idx, g2, selected, row, r, model, rc.
  cbn. rewrite <- !app_assoc. cbn. repeat split; auto.
Qed.

(** The same round, with the random draw that chose the pinned row: the
    draw is made in the random state the discrete search left. *)
Lemma hybrid_round_inv self searchspace batch_size train_x train_y s d
    rec_exp s' :
  heap s !! disc_recommender self = Some d ->
  supported d ->
  hybrid_path searchspace ->
  recommend self searchspace batch_size train_x train_y s = (Ok rec_exp, s') ->
  exists candidates_comp s1 d1 disc_rec_idx g2 selected k g3 row r model,
    pin_continuous_point self searchspace train_x train_y
      (Pure.isinstance d BayesianRecommender) s = (Ok candidates_comp, s1) /\
    heap s1 !! disc_recommender self = Some d1 /\
    _recommend_discrete d1 (discrete searchspace) candidates_comp batch_size
      (rng s1) = (Ok disc_rec_idx, g2) /\
    df_loc (comp_rep (discrete searchspace)) disc_rec_idx = Ok selected /\
    random_choice (nrows selected) g2 = (k, g3) /\
    firstn 1 (skipn (k mod nrows selected) (rows selected)) = [row] /\
    In row (rows selected) /\
    heap s1 !! cont_recommender self = Some r /\
    let cont_acqf_part :=
      PartialAcquisitionFunction (S (next_oid s1))
        (Some (BaseAcquisitionFunction (next_oid s1) model)) [[row]] true in
    heap s' = <[ cont_recommender self :=
                   Pure.with_acquisition_function r (Some cont_acqf_part) ]>
                (heap s1) /\
    calls s' = calls s1 ++
               [CallRecommendDiscrete (disc_recommender self)
                  (Pure._acquisition_function d1) batch_size;
                CallSample 1;
                CallSetupAcquisitionFunction (cont_recommender self);
                CallRecommendContinuous (cont_recommender self)
                  (Some cont_acqf_part) batch_size].
Proof.
  intros Hd Hs Ht Hrun.
  rewrite (recommend_hybrid_blocks _ _ _ _ _ _ _ Hd Hs Ht) in Hrun.
  apply hybrid_blocks_inv in Hrun
    as (cc & s1 & idx & s2 & s3 & rc & Hpin & Hdisc & Hpin2 & Hcont & Hglue).
  apply call_recommend_discrete_inv in Hdisc as (d1 & g2 & Hd1 & Hsearch & ->).
  apply pin_discrete_point_inv in Hpin2
    as (selected & row & k & g3 & r & model & g4 & Hsel & Hk & Hrow & Hin
        & Hr & Hfit & ->).
  cbn in Hr, Hk, Hfit.
  apply call_recommend_continuous_inv in Hcont as (r' & g5 & Hr' & Hc & ->).
  cbn in Hr', Hc.
  rewrite list_lookup_insert_eq in Hr' by exact (lookup_lt_Some _ _ _ Hr).
  inversion Hr'; subst r'; clear Hr'.
  exists cc, s1, d1, idx, g2, selected, k, g3, row, r, model.
  cbn. rewrite <- !app_assoc. cbn. repeat split; auto.
Qed.

Lemma isinstance_spec (r : Pure.t) (c : RecommenderClass) :
  Pure.isinstance r c = true <-> Pure.cls r = c.
Proof.
  unfold Pure.isinstance.
  destruct (Pure.cls r), c; cbn; split; intros H; congruence.
Qed.

(** The state in which the discrete search runs, and the recommender it
    runs on. *)
Lemma discrete_search_state self searchspace train_x train_y s d
    candidates_comp s1 :
  heap s !! disc_recommender self = Some d ->
  pin_continuous_point self searchspace train_x train_y
    (Pure.isinstance d BayesianRecommender) s = (Ok candidates_comp, s1) ->
  exists cp g1 d1,
    samples_random (continuous searchspace) 1 (rng s) = (Ok cp, g1) /\
    heap s1 !! disc_recommender self = Some d1 /\
    Pure.cls d1 = Pure.cls d /\
    length (heap s1) = length (heap s) /\
    (forall l, l <> disc_recommender self -> heap s1 !! l = heap s !! l) /\
    (next_oid s <= next_oid s1)%nat /\
    warnings s1 = warnings s /\
    calls s1 = calls s ++ [CallSamplesRandom 1; CallGetCandidates true true]
               ++ (if Pure.isinstance d BayesianRecommender
                   then [CallSetupAcquisitionFunction (disc_recommender self)]
                   else []) /\
    (Pure.cls d = BayesianRecommender ->
     next_oid s1 = S (S (next_oid s)) /\
     exists model,
       Pure._acquisition_function d1
       = Some (PartialAcquisitionFunction (S (next_oid s))
                 (Some (BaseAcquisitionFunction (next_oid s) model))
                 (unsqueeze_m2 (to_tensor cp)) false)) /\
    (Pure.cls d <> BayesianRecommender -> d1 = d /\ heap s1 = heap s).
Proof.
  intros Hd Hpin.
  apply pin_continuous_point_inv in Hpin as (cp & g1 & ce & Hcp & Hce & Hb).
  destruct (Pure.isinstance d BayesianRecommender) eqn:Hi.
  - apply isinstance_spec in Hi.
    destruct Hb as (r & model & g2 & Hr & Hfit & ->).
    rewrite Hd in Hr. inversion Hr; subst r; clear Hr.
    pose proof (lookup_lt_Some _ _ _ Hd) as Hlt.
    eexists cp, g1, _. cbn.
    split; [exact Hcp|].
    split; [apply list_lookup_insert_eq; exact Hlt|].
    split; [reflexivity|].
    split; [apply length_insert|].
    split; [intros l Hl; apply list_lookup_insert_ne; congruence|].
    split; [lia|].
    split; [reflexivity|].
    split; [reflexivity|].
    split; [intros _; split; [reflexivity|exists model; reflexivity]|].
    intros Hn. contradiction.
  - subst s1. exists cp, g1, d. cbn.
    assert (Hn : Pure.cls d <> BayesianRecommender).
    { intros Hc. apply isinstance_spec in Hc. congruence. }
    repeat split; auto; contradiction.
Qed.

(** C3: in a hybrid round that returns a batch, one continuous point is
    sampled and one row is sampled among the discrete rows selected: the
    row at the position that the random choice, made in the random state
    the discrete search left, names among them.  Each search routine is
    called once, for the whole batch, so the batch shares the pin.  The
    discrete search ran on an adapter made in this round, around the newly
    built acquisition function, pinning the sampled continuous point with
    [pin_discrete = false], if the discrete sub-recommender is Bayesian,
    and on the recommender's own acquisition function, not replaced, if it
    is not.  The continuous search always ran on an adapter around a newly
    built acquisition function, pinning the sampled discrete row with
    [pin_discrete = true]. *)
Theorem hybrid_pinning self searchspace batch_size train_x train_y s d
    rec_exp s' :
  heap s !! disc_recommender self = Some d ->
  supported d ->
  hybrid_path searchspace ->
  recommend self searchspace batch_size train_x train_y s = (Ok rec_exp, s') ->
  exists cp g1 disc_rec_idx selected row disc_acqf cont_acqf_part k g2 g3,
    samples_random (continuous searchspace) 1 (rng s) = (Ok cp, g1) /\
    df_loc (comp_rep (discrete searchspace)) disc_rec_idx = Ok selected /\
    In row (rows selected) /\
    calls s' =
      calls s ++ [CallSamplesRandom 1; CallGetCandidates true true]
      ++ (if Pure.isinstance d BayesianRecommender
          then [CallSetupAcquisitionFunction (disc_recommender self)]
          else [])
      ++ [CallRecommendDiscrete (disc_recommender self) disc_acqf batch_size;
          CallSample 1;
          CallSetupAcquisitionFunction (cont_recommender self);
          CallRecommendContinuous (cont_recommender self)
            (Some cont_acqf_part) batch_size] /\
    (Pure.cls d = BayesianRecommender ->
     exists model,
       disc_acqf
       = Some (PartialAcquisitionFunction (S (next_oid s))
                 (Some (BaseAcquisitionFunction (next_oid s) model))
                 (unsqueeze_m2 (to_tensor cp)) false)) /\
    (Pure.cls d <> BayesianRecommender ->
     disc_acqf = Pure._acquisition_function d) /\
    (exists o model,
       (next_oid s <= o)%nat /\
       cont_acqf_part
       = PartialAcquisitionFunction (S o)
           (Some (BaseAcquisitionFunction o model)) [[row]] true) /\
    (exists c,
       heap s' !! cont_recommender self = Some c /\
       Pure._acquisition_function c = Some cont_acqf_part) /\
    (exists d1 candidates_comp g,
       Pure._acquisition_function d1 = disc_acqf /\
       _recommend_discrete d1 (discrete searchspace) candidates_comp
         batch_size g = (Ok disc_rec_idx, g2)) /\
    random_choice (nrows selected) g2 = (k, g3) /\
    (k mod nrows selected < nrows selected)%nat /\
    rows selected !! (k mod nrows selected)%nat = Some row /\
    firstn 1 (skipn (k mod nrows selected) (rows selected)) = [row].
Proof.
  intros Hd Hs Ht Hrun.
  destruct (hybrid_round_inv _ _ _ _ _ _ _ _ _ Hd Hs Ht Hrun)
    as (cc & s1 & d1 & idx & g2 & selected & k & g3 & row & r & model & Hpin
        & Hd1 & Hsearch & Hsel & Hk & Hrow & Hin & Hr & Hheap & Hcalls).
  destruct (discrete_search_state _ _ _ _ _ _ _ _ Hd Hpin)
    as (cp & g1 & d1' & Hcp & Hd1' & Hcls & Hlen & Hframe & Hle & Hw & Hc1
        & Hbayes & Hother).
  rewrite Hd1 in Hd1'. inversion Hd1'; subst d1'; clear Hd1'.
  assert (Hlt : (k mod nrows selected < nrows selected)%nat).
  { apply Nat.mod_upper_bound. unfold nrows.
    destruct (rows selected); [destruct Hin|discriminate]. }
  assert (Hat : rows selected !! (k mod nrows selected)%nat = Some row).
  { rewrite <- (Nat.add_0_r (k mod nrows selected)), <- lookup_drop.
    destruct (drop (k mod nrows selected) (rows selected)) as [|y t];
      cbn in Hrow; [discriminate Hrow|].
    now inversion Hrow. }
  exists cp, g1, idx, selected, row, (Pure._acquisition_function d1).
  eexists. exists k, g2, g3.
  split; [exact Hcp|]. split; [exact Hsel|]. split; [exact Hin|].
  split; [rewrite Hcalls, Hc1, <- !app_assoc; reflexivity|].
  split; [intros Hb; exact (proj2 (Hbayes Hb))|].
  split; [intros Hb; now destruct (Hother Hb) as [-> _]|].
  split; [exists (next_oid s1), model; split; [exact Hle|reflexivity]|].
  split.
  { eexists. split.
    - rewrite Hheap. apply list_lookup_insert_eq.
      exact (lookup_lt_Some _ _ _ Hr).
    - reflexivity. }
  split; [exists d1, cc, (rng s1); split; [reflexivity|exact Hsearch]|].
  split; [exact Hk|]. split; [exact Hlt|]. split; [exact Hat|exact Hrow].
Qed.

(** The adapters a successful hybrid round leaves behind. *)
Lemma hybrid_adapters_left self searchspace batch_size train_x train_y s d
    rec_exp s' :
  heap s !! disc_recommender self = Some d ->
  supported d ->
  hybrid_path searchspace ->
  recommend self searchspace batch_size train_x train_y s = (Ok rec_exp, s') ->
  (exists c o base pinned,
     heap s' !! cont_recommender self = Some c /\
     Pure._acquisition_function c
     = Some (PartialAcquisitionFunction o base pinned true) /\
     (next_oid s <= o < next_oid s')%nat) /\
  (Pure.cls d = BayesianRecommender ->
   disc_recommender self <> cont_recommender self ->
   exists d' o base pinned,
     heap s' !! disc_recommender self = Some d' /\
     Pure._acquisition_function d'
     = Some (PartialAcquisitionFunction o base pinned false) /\
     (next_oid s <= o < next_oid s')%nat) /\
  (exists d', heap s' !! disc_recommender self = Some d' /\
              Pure.cls d' = Pure.cls d).
Proof.
  intros Hd Hs Ht Hrun.
  destruct (hybrid_run_inv _ _ _ _ _ _ _ _ _ Hd Hs Ht Hrun)
    as (cc & s1 & d1 & idx & g2 & selected & row & r & model & rc & Hpin
        & Hd1 & Hsearch & Hsel & Hin & Hr & Hglue & Hheap & Hoid & Hwarn
        & Hcalls).
  destruct (discrete_search_state _ _ _ _ _ _ _ _ Hd Hpin)
    as (cp & g1 & d1' & Hcp & Hd1' & Hcls & Hlen & Hframe & Hle & Hw & Hc1
        & Hbayes & Hother).
  rewrite Hd1 in Hd1'. inversion Hd1'; subst d1'; clear Hd1'.
  pose proof (lookup_lt_Some _ _ _ Hr) as Hlt.
  split; [|split].
  - eexists _, (S (next_oid s1)), _, _. split; [|split].
    + rewrite Hheap. apply list_lookup_insert_eq. exact Hlt.
    + reflexivity.
    + lia.
  - intros Hb Hne. destruct (Hbayes Hb) as (Hn1 & model0 & Ha).
    exists d1. eexists _, _, _. split; [|split].
    + rewrite Hheap, list_lookup_insert_ne by congruence. exact Hd1.
    + exact Ha.
    + lia.
  - destruct (decide (cont_recommender self = disc_recommender self))
      as [He|Hne].
    + eexists. split.
      * rewrite Hheap, <- He. apply list_lookup_insert_eq. exact Hlt.
      * cbn. rewrite He, Hd1 in Hr. inversion Hr; subst r. exact Hcls.
    + exists d1. split; [|exact Hcls].
      rewrite Hheap, list_lookup_insert_ne by exact Hne. exact Hd1.
Qed.

(** C7 (amended): the adapters are made anew in every hybrid round and
    are kept, not discarded: when a hybrid [recommend] has returned, the
    continuous sub-recommender holds the adapter made in that round (an
    object that did not exist before the call), and so does a Bayesian
    discrete sub-recommender that is another object; the adapter the next
    round leaves in place is again a newer object, so none is used
    twice. *)
Theorem adapters_fresh_and_kept self searchspace batch_size train_x train_y
    s d rec_exp s' :
  heap s !! disc_recommender self = Some d ->
  supported d ->
  hybrid_path searchspace ->
  recommend self searchspace batch_size train_x train_y s = (Ok rec_exp, s') ->
  (exists c o base pinned,
     heap s' !! cont_recommender self = Some c /\
     Pure._acquisition_function c
     = Some (PartialAcquisitionFunction o base pinned true) /\
     (next_oid s <= o < next_oid s')%nat /\
     forall searchspace2 batch_size2 train_x2 train_y2 rec_exp2 s'',
       hybrid_path searchspace2 ->
       recommend self searchspace2 batch_size2 train_x2 train_y2 s'
       = (Ok rec_exp2, s'') ->
       exists c2 o2 base2 pinned2,
         heap s'' !! cont_recommender self = Some c2 /\
         Pure._acquisition_function c2
         = Some (PartialAcquisitionFunction o2 base2 pinned2 true) /\
         (o < o2)%nat) /\
  (Pure.cls d = BayesianRecommender ->
   disc_recommender self <> cont_recommender self ->
   exists d' o base pinned,
     heap s' !! disc_recommender self = Some d' /\
     Pure._acquisition_function d'
     = Some (PartialAcquisitionFunction o base pinned false) /\
     (next_oid s <= o < next_oid s')%nat).
Proof.
  intros Hd Hs Ht Hrun.
  destruct (hybrid_adapters_left _ _ _ _ _ _ _ _ _ Hd Hs Ht Hrun)
    as ((c & o & base & pinned & Hc & Ha & Ho) & Hdisc & (d' & Hd' & Hcls)).
  split; [|exact Hdisc].
  exists c, o, base, pinned. repeat split; auto; try lia.
  intros ss2 bs2 tx2 ty2 rec2 s'' Ht2 Hrun2.
  assert (Hs' : supported d') by (unfold supported; now rewrite Hcls).
  destruct (hybrid_adapters_left _ _ _ _ _ _ _ _ _ Hd' Hs' Ht2 Hrun2)
    as ((c2 & o2 & base2 & pinned2 & Hc2 & Ha2 & Ho2) & _ & _).
  exists c2, o2, base2, pinned2. repeat split; auto. lia.
Qed.

End Pinning.

Lemma hybrid_pinning_witness :
  exists cp g1 row disc_acqf cont_acqf_part batch selected k g2 g3,
    samples_random (Collaborators := Lab.collab)
      (continuous Lab.hybrid_space) 1 (rng Lab.s0) = (Ok cp, g1) /\
    In (CallRecommendDiscrete 0%nat disc_acqf 2)
       (calls (snd (recommend (collab := Lab.collab) (Lab.naive 0 1)
                      Lab.hybrid_space 2 None None Lab.s0))) /\
    (exists model,
       disc_acqf
       = Some (PartialAcquisitionFunction 1%nat
                 (Some (BaseAcquisitionFunction 0%nat model))
                 (unsqueeze_m2 (to_tensor cp)) false)) /\
    (exists o model,
       cont_acqf_part
       = PartialAcquisitionFunction (S o)
           (Some (BaseAcquisitionFunction o model)) [[row]] true) /\
    fst (recommend (collab := Lab.collab) (Lab.naive 0 1)
           Lab.hybrid_space 2 None None Lab.s0) = Ok batch /\
    random_choice (Collaborators := Lab.collab) (nrows selected) g2
    = (k, g3) /\
    rows selected !! (k mod nrows selected)%nat = Some row.
Proof.
  assert (Hrun : exists rec_exp s',
             recommend (collab := Lab.collab) (Lab.naive 0 1)
               Lab.hybrid_space 2 None None Lab.s0 = (Ok rec_exp, s'))
    by (eexists _, _; vm_compute; reflexivity).
  destruct Hrun as (rec_exp & s' & Hrun).
  assert (Ht : hybrid_path Lab.hybrid_space) by (split; discriminate).
  destruct (hybrid_pinning (collab := Lab.collab) (Lab.naive 0 1)
              Lab.hybrid_space 2 None None Lab.s0 (Lab.bayesian false true)
              rec_exp s' eq_refl (or_introl eq_refl) Ht Hrun)
    as (cp & g1 & idx & selected & row & disc_acqf & cont_acqf_part & k & g2
        & g3 & Hcp & _ & _ & Hcalls & Hb & _ & (o & model & _ & Hc) & _ & _
        & Hk & _ & Hat & _).
  exists cp, g1, row, disc_acqf, cont_acqf_part, rec_exp, selected, k, g2, g3.
  rewrite Hrun. cbn [fst snd].
  split; [exact Hcp|]. split.
  - rewrite Hcalls. apply in_or_app. right. cbn. auto.
  - split; [exact (Hb eq_refl)|]. split; [exists o, model; exact Hc|].
    split; [reflexivity|]. split; [exact Hk|exact Hat].
Defined.

Lemma adapters_fresh_and_kept_witness :
  exists c o base pinned,
    heap (snd (recommend (collab := Lab.collab) (Lab.naive 0 1)
                 Lab.hybrid_space 2 None None Lab.s0)) !! 1%nat = Some c /\
    Pure._acquisition_function c
    = Some (PartialAcquisitionFunction o base pinned true) /\
    (next_oid Lab.s0 <= o)%nat.
Proof.
  assert (Hrun : exists rec_exp s',
             recommend (collab := Lab.collab) (Lab.naive 0 1)
               Lab.hybrid_space 2 None None Lab.s0 = (Ok rec_exp, s'))
    by (eexists _, _; vm_compute; reflexivity).
  destruct Hrun as (rec_exp & s' & Hrun).
  assert (Ht : hybrid_path Lab.hybrid_space) by (split; discriminate).
  destruct (adapters_fresh_and_kept (collab := Lab.collab) (Lab.naive 0 1)
              Lab.hybrid_space 2 None None Lab.s0 (Lab.bayesian false true)
              rec_exp s' eq_refl (or_introl eq_refl) Ht Hrun)
    as ((c & o & base & pinned & Hc & Ha & Ho & _) & _).
  exists c, o, base, pinned. rewrite Hrun. cbn [snd].
  split; [exact Hc|]. split; [exact Ha|]. lia.
Defined.

(** C7 as stated fails: after a hybrid [recommend] has returned, the
    continuous sub-recommender still holds the adapter that was made
    during the call. *)
Lemma adapters_discarded_counterexample :
  exists rec_exp s' c a,
    recommend (collab := Lab.collab) (Lab.naive 0 1) Lab.hybrid_space 2
      None None Lab.s0 = (Ok rec_exp, s') /\
    heap s' !! cont_recommender (Lab.naive 0 1) = Some c /\
    Pure._acquisition_function c = Some a /\
    is_partial a = true /\
    (next_oid Lab.s0 <= oid_of a)%nat /\
    Pure._acquisition_function (Lab.bayesian false true) = None.
Proof.
  eexists _, _, _, _. split; [vm_compute; reflexivity|].
  split; [reflexivity|]. split; [reflexivity|].
  split; [reflexivity|]. split; [cbn; lia|reflexivity].
Qed.

(** ** The candidate pool of the hybrid round *)

(** What a successful [df.loc[idx]] returns. *)
Lemma df_loc_inv df (idx : list Z) selected :
  df_loc df idx = Ok selected ->
  columns selected = columns df /\
  length (index selected) = length (rows selected) /\
  Forall (fun l => In l idx) (index selected) /\
  Forall (fun r => In r (rows df)) (rows selected).
Proof.
  unfold df_loc. destruct (forallb _ idx); intros H; inversion H; subst.
  cbn. rewrite !length_map. split; [reflexivity|]. split; [reflexivity|].
  assert (Hp : Forall (fun p => In (fst p) idx /\ In (snd p) (rows df))
                 (flat_map (rows_at (index df) (rows df)) idx)).
  { apply Forall_forall. intros p Hp. apply list_elem_of_In in Hp.
    apply in_flat_map in Hp as (l & Hl & Hp).
    destruct (rows_at_In _ _ _ _ Hp) as [-> Hr]. auto. }
  split; apply Forall_map; eapply Forall_impl; try exact Hp;
    intros p [H1 H2]; assumption.
Qed.

Section Pool.
Context {collab : Collaborators}.

(** A pool that answers as [get_candidates] does when asked for every
    configuration gives the same [recommend], on every space and in every
    state, whatever it answers to the other three combinations of flags. *)
Lemma recommend_with_pool pool' self searchspace batch_size train_x train_y
    s :
  (forall sub, pool' sub true true = get_candidates sub true true) ->
  recommend (collab := with_pool collab pool') self searchspace batch_size
    train_x train_y s
  = recommend self searchspace batch_size train_x train_y s.
Proof.
  intros Hagree. unfold recommend.
  apply bind_cong; [reflexivity|]. intros d s1 _.
  destruct (negb _ && negb _); [reflexivity|].
  destruct (SearchSpaceType_eqb (type searchspace) DISCRETE); [reflexivity|].
  destruct (SearchSpaceType_eqb (type searchspace) CONTINUOUS);
    [reflexivity|].
  apply bind_cong; [reflexivity|]. intros cp s2 _.
  apply bind_cong; [|reflexivity].
  rewrite !call_get_candidates_run. cbn [get_candidates with_pool].
  now rewrite Hagree.
Qed.

(** C6: on the hybrid path, whatever the flags of the orchestrator and of
    its discrete sub-recommender, the candidate pool is asked for all
    configurations (both flags true) and for nothing else.  Every pool call
    in the log has both flags true, and one is there as soon as the
    continuous point has been sampled.  The answer of the pool to that
    question is what the round goes on with: when it is an exception, the
    round raises it; when the round returns a batch, the pool answered
    with two frames and the discrete search was run on the second of them,
    the computational one, by the discrete sub-recommender as it was at
    that point.  What the pool would answer under any other flags has no
    influence on [recommend]. *)
Theorem candidate_pool_ignores_policy
    self searchspace batch_size train_x train_y s d :
  heap s !! disc_recommender self = Some d ->
  supported d ->
  hybrid_path searchspace ->
  (exists new,
     calls (snd (recommend self searchspace batch_size train_x train_y s))
     = calls s ++ new /\
     Forall pool_call_permits_all new /\
     (forall a b, In (CallGetCandidates a b) new -> a = true /\ b = true) /\
     (forall cp g,
        samples_random (continuous searchspace) 1 (rng s) = (Ok cp, g) ->
        In (CallGetCandidates true true) new)) /\
  (forall cp g e,
     samples_random (continuous searchspace) 1 (rng s) = (Ok cp, g) ->
     get_candidates (discrete searchspace) true true = Raise e ->
     fst (recommend self searchspace batch_size train_x train_y s)
     = Raise e) /\
  (forall rec_exp s',
     recommend self searchspace batch_size train_x train_y s
     = (Ok rec_exp, s') ->
     exists candidates_exp candidates_comp d1 g g2 disc_rec_idx,
       get_candidates (discrete searchspace) true true
       = Ok (candidates_exp, candidates_comp) /\
       _recommend_discrete d1 (discrete searchspace) candidates_comp
         batch_size g = (Ok disc_rec_idx, g2) /\
       In (CallRecommendDiscrete (disc_recommender self)
             (Pure._acquisition_function d1) batch_size) (calls s') /\
       Forall (fun l => In l disc_rec_idx) (index rec_exp)) /\
  (forall pool',
     (forall sub, pool' sub true true = get_candidates sub true true) ->
     recommend (collab := with_pool collab pool') self searchspace batch_size
       train_x train_y s
     = recommend self searchspace batch_size train_x train_y s).
Proof.
  intros Hd Hs Ht.
  split; [exact (pool_calls_logged _ _ _ _ _ _ _ Hd Hs Ht)|].
  split; [|split].
  - intros cp g e Hcp Hpool.
    rewrite (recommend_hybrid_blocks _ _ _ _ _ _ _ Hd Hs Ht).
    unfold hybrid_blocks, pin_continuous_point.
    rewrite bind_assoc. unfold bind at 1.
    rewrite call_samples_random_run, Hcp. cbn [fst snd].
    rewrite bind_assoc. unfold bind at 1.
    rewrite call_get_candidates_run, Hpool. reflexivity.
  - intros rec_exp s' Hrun.
    destruct (hybrid_run_inv _ _ _ _ _ _ _ _ _ Hd Hs Ht Hrun)
      as (cc & s1 & d1 & idx & g2 & selected & row & r & model & rc & Hpin
          & Hd1 & Hsearch & _ & _ & _ & Hg & _ & _ & _ & Hcalls).
    apply pin_continuous_point_inv in Hpin as (cp & g1 & ce & _ & Hce & _).
    exists ce, cc, d1, (rng s1), g2, idx.
    split; [exact Hce|]. split; [exact Hsearch|]. split.
    + rewrite Hcalls, in_app_iff. right. now left.
    + unfold glue_solutions in Hg.
      destruct (df_loc (exp_rep (discrete searchspace)) idx) as [rde|e0]
        eqn:Hloc; [|discriminate Hg].
      destruct (df_loc_inv _ _ _ Hloc) as (_ & _ & Hlab & _).
      unfold set_index in Hg.
      destruct (length (index rde) =? nrows rc)%nat; [|discriminate Hg].
      unfold concat_axis1 in Hg. cbn in Hg.
      rewrite index_eqb_refl in Hg. inversion Hg; subst rec_exp. exact Hlab.
  - intros pool' Hagree. now apply recommend_with_pool.
Qed.

End Pool.

Lemma candidate_pool_ignores_policy_witness :
  (exists new,
     calls (snd (recommend (collab := Lab.collab) (Lab.naive 0 1)
                   Lab.hybrid_space 2 None None Lab.s0))
     = calls Lab.s0 ++ new /\
     In (CallGetCandidates true true) new /\
     (forall a b, In (CallGetCandidates a b) new -> a = true /\ b = true)) /\
  recommend (collab := with_pool Lab.collab
                         (fun sub a b =>
                            if a && b
                            then get_candidates (Collaborators := Lab.collab)
                                   sub a b
                            else Raise ValueError))
    (Lab.naive 0 1) Lab.hybrid_space 2 None None Lab.s0
  = recommend (collab := Lab.collab) (Lab.naive 0 1) Lab.hybrid_space 2
      None None Lab.s0.
Proof.
  assert (Ht : hybrid_path Lab.hybrid_space) by (split; discriminate).
  destruct (candidate_pool_ignores_policy (collab := Lab.collab)
              (Lab.naive 0 1) Lab.hybrid_space 2 None None Lab.s0
              (Lab.bayesian false true) eq_refl (or_introl eq_refl) Ht)
    as ((new & H1 & _ & H2 & H3) & _ & _ & H4).
  split.
  - exists new. split; [exact H1|]. split; [|exact H2].
    exact (H3 _ _ eq_refl).
  - apply H4. intros sub. reflexivity.
Defined.

(** ** The batch that is returned *)

Lemma Forall_of_members {A} (P : A -> Prop) (l sub : list A) :
  Forall P l -> Forall (fun x => In x l) sub -> Forall P sub.
Proof.
  intros Hl Hsub. rewrite Forall_forall in Hl.
  induction Hsub as [|x sub Hx Hsub IH]; constructor; auto.
  apply Hl. now apply list_elem_of_In.
Qed.

Section Batch.
Context {collab : Collaborators}.

(** C2 (amended): in a hybrid round whose blocks all succeed, where the
    discrete search has returned [batch_size] labels that name one row of
    the experimental representation each and the continuous search has
    returned a well-formed frame of [batch_size] rows over the continuous
    parameters, [recommend] returns a batch.  The discrete half is the
    experimental representation of the selected rows under their own
    labels (not renumbered), the index of the continuous half is
    overwritten with these labels, and the batch is the two halves glued
    row by row, discrete columns first.  It has [batch_size] rows and as
    many columns as the two subspaces together, and no missing value when
    the halves have none. *)
Theorem hybrid_batch_shape self searchspace batch_size train_x train_y s d
    candidates_comp s1 disc_rec_idx s2 s3 rec_cont s4 :
  heap s !! disc_recommender self = Some d ->
  supported d ->
  hybrid_path searchspace ->
  pin_continuous_point self searchspace train_x train_y
    (Pure.isinstance d BayesianRecommender) s = (Ok candidates_comp, s1) ->
  call_recommend_discrete (disc_recommender self) (discrete searchspace)
    candidates_comp batch_size s1 = (Ok disc_rec_idx, s2) ->
  pin_discrete_point self searchspace train_x train_y disc_rec_idx s2
  = (Ok tt, s3) ->
  call_recommend_continuous (cont_recommender self) (continuous searchspace)
    batch_size s3 = (Ok rec_cont, s4) ->
  length disc_rec_idx = Z.to_nat batch_size ->
  Forall (names_one_row (exp_rep (discrete searchspace))) disc_rec_idx ->
  frame_ok (exp_rep (discrete searchspace)) ->
  no_missing (exp_rep (discrete searchspace)) ->
  frame_ok rec_cont ->
  no_missing rec_cont ->
  nrows rec_cont = Z.to_nat batch_size ->
  columns rec_cont = param_names (continuous searchspace) ->
  exists rec_exp rec_disc_exp rec_cont',
    recommend self searchspace batch_size train_x train_y s
    = (Ok rec_exp, s4) /\
    df_loc (exp_rep (discrete searchspace)) disc_rec_idx = Ok rec_disc_exp /\
    index rec_disc_exp = disc_rec_idx /\
    set_index rec_cont (index rec_disc_exp) = Ok rec_cont' /\
    index rec_cont' = disc_rec_idx /\
    concat_axis1 rec_disc_exp rec_cont' = Ok rec_exp /\
    index rec_exp = disc_rec_idx /\
    columns rec_exp
    = columns (exp_rep (discrete searchspace)) ++ columns rec_cont /\
    rows rec_exp = zip_rows (rows rec_disc_exp) (rows rec_cont) /\
    nrows rec_exp = Z.to_nat batch_size /\
    ncols rec_exp
    = (ncols (exp_rep (discrete searchspace))
       + length (param_names (continuous searchspace)))%nat /\
    frame_ok rec_exp /\
    no_missing rec_exp.
Proof.
  intros Hd Hs Ht H1 H2 H3 H4 Hlen Hone [_ Hexp] Hexp_nm [Hrc_ix Hrc]
    Hrc_nm Hrows Hcols.
  rewrite (recommend_hybrid_blocks _ _ _ _ _ _ _ Hd Hs Ht).
  rewrite (hybrid_blocks_run _ _ _ _ _ _ _ _ _ _ _ _ _ _ H1 H2 H3 H4).
  assert (Hn : nrows rec_cont = length disc_rec_idx) by congruence.
  destruct (glue_solutions_one_each searchspace disc_rec_idx rec_cont
              Hone Hn) as (rs & Hloc & Hrs & Hmem & Hglue).
  rewrite Hglue.
  assert (Hzip : length (zip_rows rs (rows rec_cont)) = length rs).
  { apply zip_rows_length. unfold nrows in Hn. congruence. }
  eexists _, _, _. split; [reflexivity|]. split; [exact Hloc|]. cbn.
  split; [reflexivity|].
  split; [unfold set_index; now rewrite Hn, Nat.eqb_refl|]. cbn.
  split; [reflexivity|].
  split; [unfold concat_axis1; cbn; now rewrite index_eqb_refl|].
  split; [reflexivity|]. split; [reflexivity|]. split; [reflexivity|].
  split; [unfold nrows; cbn; congruence|].
  split; [unfold ncols; cbn; now rewrite length_app, Hcols|].
  split; [split|]; cbn.
  - congruence.
  - apply (zip_rows_Forall
             (fun r => length r = length (columns (exp_rep
                                                     (discrete searchspace))))
             (fun r => length r = length (columns rec_cont))).
    + intros x y Hx Hy. now rewrite !length_app, Hx, Hy.
    + exact (Forall_of_members _ _ _ Hexp Hmem).
    + exact Hrc.
  - unfold no_missing. cbn.
    apply (zip_rows_Forall (Forall (fun c : Cell => c <> None))
             (Forall (fun c : Cell => c <> None))).
    + intros x y Hx Hy. apply Forall_app. auto.
    + exact (Forall_of_members _ _ _ Hexp_nm Hmem).
    + exact Hrc_nm.
Qed.

End Batch.

Lemma hybrid_batch_shape_witness :
  exists rec_exp,
    fst (recommend (collab := Lab.collab) (Lab.naive 0 1) Lab.hybrid_space 2
           None None Lab.s0) = Ok rec_exp /\
    index rec_exp = [2; 1] /\
    nrows rec_exp = 2%nat /\
    ncols rec_exp = 2%nat /\
    no_missing rec_exp.
Proof.
  assert (Ht : hybrid_path Lab.hybrid_space) by (split; discriminate).
  epose proof (hybrid_batch_shape (collab := Lab.collab) (Lab.naive 0 1)
                 Lab.hybrid_space 2 None None Lab.s0
                 (Lab.bayesian false true) _ _ _ _ _ _ _
                 eq_refl (or_introl eq_refl) Ht) as H.
  specialize (H ltac:(vm_compute; reflexivity)).
  specialize (H ltac:(vm_compute; reflexivity)).
  specialize (H ltac:(vm_compute; reflexivity)).
  specialize (H ltac:(vm_compute; reflexivity)).
  specialize (H eq_refl).
  specialize (H ltac:(repeat constructor)).
  specialize (H ltac:(split; [reflexivity|repeat constructor])).
  specialize (H ltac:(repeat constructor; discriminate)).
  specialize (H ltac:(split; [reflexivity|repeat constructor])).
  specialize (H ltac:(repeat constructor; discriminate)).
  specialize (H eq_refl eq_refl).
  destruct H as (rec_exp & rde & rc' & Hrun & _ & _ & _ & _ & _ & Hix & _ & _
                 & Hn & Hc & _ & Hnm).
  exists rec_exp. rewrite Hrun. cbn [fst].
  repeat split; assumption.
Defined.

(** C2 as stated fails: the rows of the batch are not indexed
    0..batch_size-1; they carry the labels of the selected discrete rows. *)
Lemma hybrid_batch_index_counterexample :
  exists rec_exp s',
    recommend (collab := Lab.collab) (Lab.naive 0 1) Lab.hybrid_space 2
      None None Lab.s0 = (Ok rec_exp, s') /\
    nrows rec_exp = 2%nat /\
    index rec_exp = [2; 1] /\
    index rec_exp <> map Z.of_nat (seq 0 2).
Proof.
  eexists _, _. split; [vm_compute; reflexivity|].
  split; [reflexivity|]. split; [reflexivity|]. discriminate.
Qed.

(** * Further properties of the hybrid round *)

(** ** Where a round can fail *)

Lemma has_label_In (ix : list Z) (l : Z) : has_label ix l = true <-> In l ix.
Proof.
  unfold has_label. rewrite existsb_exists. split.
  - intros (x & Hx & E). apply Z.eqb_eq in E. now subst.
  - intros H. exists l. split; [exact H|apply Z.eqb_refl].
Qed.

Lemma df_loc_missing_label df (idx : list Z) (l : Z) :
  In l idx -> ~ In l (index df) -> df_loc df idx = Raise KeyError.
Proof.
  intros Hin Hout. unfold df_loc.
  destruct (forallb (has_label (index df)) idx) eqn:E; [|reflexivity].
  rewrite forallb_forall in E. apply E, has_label_In in Hin. contradiction.
Qed.

Section Failures.
Context {collab : Collaborators}.

Lemma call_recommend_continuous_run l sub batch_size s r :
  heap s !! l = Some r ->
  call_recommend_continuous l sub batch_size s
  = (fst (_recommend_continuous r sub batch_size (rng s)),
     {| heap := heap s;
        rng := snd (_recommend_continuous r sub batch_size (rng s));
        next_oid := next_oid s;
        calls := calls s ++ [CallRecommendContinuous l
                               (Pure._acquisition_function r) batch_size];
        warnings := warnings s |}).
Proof.
  intros Hr. unfold call_recommend_continuous, bind, deref, log, with_rng.
  rewrite Hr. cbn.
  destruct (_recommend_continuous r sub batch_size (rng s)) as [res g].
  reflexivity.
Qed.

(** X2: a failure of the sampler or of the candidate pool ends the round
    before any recommender is touched: the exception is the outcome, the
    store of recommenders and the object counter are as before, and the
    log holds the sampler call alone, or the sampler call and the pool
    call. *)
Theorem early_failure_touches_no_recommender
    self searchspace batch_size train_x train_y s d :
  heap s !! disc_recommender self = Some d ->
  supported d ->
  hybrid_path searchspace ->
  (forall e g,
     samples_random (continuous searchspace) 1 (rng s) = (Raise e, g) ->
     recommend self searchspace batch_size train_x train_y s
     = (Raise e,
        {| heap := heap s; rng := g; next_oid := next_oid s;
           calls := calls s ++ [CallSamplesRandom 1];
           warnings := warnings s |})) /\
  (forall cp g e,
     samples_random (continuous searchspace) 1 (rng s) = (Ok cp, g) ->
     get_candidates (discrete searchspace) true true = Raise e ->
     recommend self searchspace batch_size train_x train_y s
     = (Raise e,
        {| heap := heap s; rng := g; next_oid := next_oid s;
           calls := calls s ++ [CallSamplesRandom 1;
                                CallGetCandidates true true];
           warnings := warnings s |})).
Proof.
  intros Hd Hs Ht.
  split; intros; rewrite (recommend_hybrid_blocks _ _ _ _ _ _ _ Hd Hs Ht);
    unfold hybrid_blocks, pin_continuous_point;
    rewrite bind_assoc; unfold bind at 1;
    rewrite call_samples_random_run;
    match goal with H : samples_random _ _ _ = _ |- _ => rewrite H end;
    cbn [fst snd]; [reflexivity|].
  rewrite bind_assoc. unfold bind at 1. rewrite call_get_candidates_run.
  match goal with H : get_candidates _ _ _ = _ |- _ => rewrite H end.
  cbn. now rewrite <- app_assoc.
Qed.

(** X3: when the discrete search selects no row, the round fails with the
    [ValueError] of sampling one row from an empty frame; the continuous
    sub-recommender has not been set up or called by then. *)
Theorem empty_selection_raises_value_error
    self searchspace batch_size train_x train_y s d candidates_comp s1 s2 :
  heap s !! disc_recommender self = Some d ->
  supported d ->
  hybrid_path searchspace ->
  pin_continuous_point self searchspace train_x train_y
    (Pure.isinstance d BayesianRecommender) s = (Ok candidates_comp, s1) ->
  call_recommend_discrete (disc_recommender self) (discrete searchspace)
    candidates_comp batch_size s1 = (Ok [], s2) ->
  recommend self searchspace batch_size train_x train_y s
  = (Raise ValueError,
     {| heap := heap s2; rng := rng s2; next_oid := next_oid s2;
        calls := calls s2 ++ [CallSample 1]; warnings := warnings s2 |}).
Proof.
  intros Hd Hs Ht H1 H2.
  rewrite (recommend_hybrid_blocks _ _ _ _ _ _ _ Hd Hs Ht).
  unfold hybrid_blocks.
  rewrite (bind_ok _ _ _ _ _ H1), (bind_ok _ _ _ _ _ H2).
  apply bind_raise. unfold pin_discrete_point.
  erewrite bind_ok by reflexivity.
  apply bind_raise. reflexivity.
Qed.

(** X4: when the discrete search selects a label that the computational
    representation does not have, the round fails with [KeyError] right
    after the search: nothing is sampled and the continuous
    sub-recommender is not touched. *)
Theorem unknown_label_raises_key_error
    self searchspace batch_size train_x train_y s d candidates_comp s1
    disc_rec_idx s2 l :
  heap s !! disc_recommender self = Some d ->
  supported d ->
  hybrid_path searchspace ->
  pin_continuous_point self searchspace train_x train_y
    (Pure.isinstance d BayesianRecommender) s = (Ok candidates_comp, s1) ->
  call_recommend_discrete (disc_recommender self) (discrete searchspace)
    candidates_comp batch_size s1 = (Ok disc_rec_idx, s2) ->
  In l disc_rec_idx ->
  ~ In l (index (comp_rep (discrete searchspace))) ->
  recommend self searchspace batch_size train_x train_y s
  = (Raise KeyError, s2).
Proof.
  intros Hd Hs Ht H1 H2 Hin Hout.
  rewrite (recommend_hybrid_blocks _ _ _ _ _ _ _ Hd Hs Ht).
  unfold hybrid_blocks.
  rewrite (bind_ok _ _ _ _ _ H1), (bind_ok _ _ _ _ _ H2).
  apply bind_raise. unfold pin_discrete_point. apply bind_raise.
  unfold lift. now rewrite (df_loc_missing_label _ _ _ Hin Hout).
Qed.

(** X1: when the continuous search raises, [recommend] raises that very
    exception; the search has been called once, and the adapter that was
    stored in the continuous sub-recommender for it is still there. *)
Theorem continuous_search_failure_propagates
    self searchspace batch_size train_x train_y s d candidates_comp s1
    disc_rec_idx s2 s3 c e g :
  heap s !! disc_recommender self = Some d ->
  supported d ->
  hybrid_path searchspace ->
  pin_continuous_point self searchspace train_x train_y
    (Pure.isinstance d BayesianRecommender) s = (Ok candidates_comp, s1) ->
  call_recommend_discrete (disc_recommender self) (discrete searchspace)
    candidates_comp batch_size s1 = (Ok disc_rec_idx, s2) ->
  pin_discrete_point self searchspace train_x train_y disc_rec_idx s2
  = (Ok tt, s3) ->
  heap s3 !! cont_recommender self = Some c ->
  _recommend_continuous c (continuous searchspace) batch_size (rng s3)
  = (Raise e, g) ->
  recommend self searchspace batch_size train_x train_y s
  = (Raise e,
     {| heap := heap s3; rng := g; next_oid := next_oid s3;
        calls := calls s3 ++ [CallRecommendContinuous (cont_recommender self)
                                (Pure._acquisition_function c) batch_size];
        warnings := warnings s3 |}) /\
  exists o base pinned,
    Pure._acquisition_function c
    = Some (PartialAcquisitionFunction o base pinned true).
Proof.
  intros Hd Hs Ht H1 H2 H3 Hc Hsearch. split.
  - rewrite (recommend_hybrid_blocks _ _ _ _ _ _ _ Hd Hs Ht).
    unfold hybrid_blocks.
    rewrite (bind_ok _ _ _ _ _ H1), (bind_ok _ _ _ _ _ H2),
      (bind_ok _ _ _ _ _ H3).
    apply bind_raise.
    rewrite (call_recommend_continuous_run _ _ _ _ _ Hc), Hsearch.
    reflexivity.
  - apply pin_discrete_point_inv in H3
      as (selected & row & k & g1 & r & model & g2 & _ & _ & _ & _ & Hr & _
          & ->).
    cbn in Hc.
    rewrite list_lookup_insert_eq in Hc by exact (lookup_lt_Some _ _ _ Hr).
    inversion Hc; subst c. cbn. eauto.
Qed.

(** X5: when the continuous search returns a frame whose number of rows
    differs from the number of discrete rows selected, the round fails
    with the [ValueError] of the index assignment, after both searches
    have run. *)
Theorem row_count_mismatch_raises_value_error
    self searchspace batch_size train_x train_y s d candidates_comp s1
    disc_rec_idx s2 s3 rec_cont s4 rec_disc_exp :
  heap s !! disc_recommender self = Some d ->
  supported d ->
  hybrid_path searchspace ->
  pin_continuous_point self searchspace train_x train_y
    (Pure.isinstance d BayesianRecommender) s = (Ok candidates_comp, s1) ->
  call_recommend_discrete (disc_recommender self) (discrete searchspace)
    candidates_comp batch_size s1 = (Ok disc_rec_idx, s2) ->
  pin_discrete_point self searchspace train_x train_y disc_rec_idx s2
  = (Ok tt, s3) ->
  call_recommend_continuous (cont_recommender self) (continuous searchspace)
    batch_size s3 = (Ok rec_cont, s4) ->
  df_loc (exp_rep (discrete searchspace)) disc_rec_idx = Ok rec_disc_exp ->
  nrows rec_cont <> nrows rec_disc_exp ->
  recommend self searchspace batch_size train_x train_y s
  = (Raise ValueError, s4).
Proof.
  intros Hd Hs Ht H1 H2 H3 H4 Hloc Hne.
  rewrite (recommend_hybrid_blocks _ _ _ _ _ _ _ Hd Hs Ht).
  rewrite (hybrid_blocks_run _ _ _ _ _ _ _ _ _ _ _ _ _ _ H1 H2 H3 H4).
  unfold glue_solutions. rewrite Hloc. unfold set_index.
  assert (Hix : length (index rec_disc_exp) = nrows rec_disc_exp).
  { unfold df_loc in Hloc.
    destruct (forallb _ disc_rec_idx); inversion Hloc; subst.
    unfold nrows. cbn. now rewrite !length_map. }
  rewrite Hix.
  destruct (Nat.eqb_spec (nrows rec_disc_exp) (nrows rec_cont)) as [E|E];
    [congruence|reflexivity].
Qed.

End Failures.

Lemma early_failure_touches_no_recommender_witness :
  recommend (collab := Faulty.collab Faulty.sampler_fails) (Lab.naive 0 1)
    Lab.hybrid_space 2 None None Lab.s0
  = (Raise (OtherError "sampler"),
     {| heap := heap Lab.s0; rng := 1%N; next_oid := next_oid Lab.s0;
        calls := [CallSamplesRandom 1]; warnings := [] |}) /\
  fst (recommend (collab := Faulty.collab Faulty.pool_fails) (Lab.naive 0 1)
         Lab.hybrid_space 2 None None Lab.s0)
  = Raise (OtherError "pool").
Proof.
  assert (Ht : hybrid_path Lab.hybrid_space) by (split; discriminate).
  split.
  - exact (proj1 (early_failure_touches_no_recommender
                    (collab := Faulty.collab Faulty.sampler_fails)
                    (Lab.naive 0 1) Lab.hybrid_space 2 None None Lab.s0
                    (Lab.bayesian false true) eq_refl (or_introl eq_refl) Ht)
             _ _ eq_refl).
  - rewrite (proj2 (early_failure_touches_no_recommender
                      (collab := Faulty.collab Faulty.pool_fails)
                      (Lab.naive 0 1) Lab.hybrid_space 2 None None Lab.s0
                      (Lab.bayesian false true) eq_refl (or_introl eq_refl)
                      Ht)
               _ _ _ eq_refl eq_refl).
    reflexivity.
Defined.

Lemma empty_selection_raises_value_error_witness :
  fst (recommend (collab := Faulty.collab (Faulty.selects [])) (Lab.naive 0 1)
         Lab.hybrid_space 0 None None Lab.s0)
  = Raise ValueError.
Proof.
  erewrite (empty_selection_raises_value_error
              (collab := Faulty.collab (Faulty.selects []))
              (Lab.naive 0 1) Lab.hybrid_space 0 None None Lab.s0
              (Lab.bayesian false true)).
  - reflexivity.
  - reflexivity.
  - left. reflexivity.
  - split; discriminate.
  - vm_compute. reflexivity.
  - vm_compute. reflexivity.
Defined.

Lemma unknown_label_raises_key_error_witness :
  fst (recommend (collab := Faulty.collab (Faulty.selects [1; 7]))
         (Lab.naive 0 1) Lab.hybrid_space 2 None None Lab.s0)
  = Raise KeyError.
Proof.
  erewrite (unknown_label_raises_key_error
              (collab := Faulty.collab (Faulty.selects [1; 7]))
              (Lab.naive 0 1) Lab.hybrid_space 2 None None Lab.s0
              (Lab.bayesian false true) _ _ _ _ 7).
  - reflexivity.
  - reflexivity.
  - left. reflexivity.
  - split; discriminate.
  - vm_compute. reflexivity.
  - vm_compute. reflexivity.
  - right. left. reflexivity.
  - cbn. intros [H|[H|[H|[]]]]; discriminate H.
Defined.

Lemma continuous_search_failure_propagates_witness :
  fst (recommend
         (collab := Faulty.collab
                      (Faulty.cont_answers
                         (Raise NoMCAcquisitionFunctionError)))
         (Lab.naive 0 1) Lab.hybrid_space 2 None None Lab.s0)
  = Raise NoMCAcquisitionFunctionError.
Proof.
  epose proof (continuous_search_failure_propagates
                 (collab := Faulty.collab
                              (Faulty.cont_answers
                                 (Raise NoMCAcquisitionFunctionError)))
                 (Lab.naive 0 1) Lab.hybrid_space 2 None None Lab.s0
                 (Lab.bayesian false true) _ _ _ _ _ _ _ _
                 eq_refl (or_introl eq_refl)) as H.
  specialize (H ltac:(split; discriminate)).
  specialize (H ltac:(vm_compute; reflexivity)).
  specialize (H ltac:(vm_compute; reflexivity)).
  specialize (H ltac:(vm_compute; reflexivity)).
  specialize (H ltac:(vm_compute; reflexivity)).
  specialize (H ltac:(vm_compute; reflexivity)).
  destruct H as [H _]. rewrite H. reflexivity.
Defined.

Lemma row_count_mismatch_raises_value_error_witness :
  fst (recommend
         (collab := Faulty.collab
                      (Faulty.cont_answers
                         (Ok (Lab.cont_rows Lab.cont_sub 3 (1 # 4)))))
         (Lab.naive 0 1) Lab.hybrid_space 2 None None Lab.s0)
  = Raise ValueError.
Proof.
  epose proof (row_count_mismatch_raises_value_error
                 (collab := Faulty.collab
                              (Faulty.cont_answers
                                 (Ok (Lab.cont_rows Lab.cont_sub 3 (1 # 4)))))
                 (Lab.naive 0 1) Lab.hybrid_space 2 None None Lab.s0
                 (Lab.bayesian false true) _ _ _ _ _ _ _ _
                 eq_refl (or_introl eq_refl)) as H.
  specialize (H ltac:(split; discriminate)).
  specialize (H ltac:(vm_compute; reflexivity)).
  specialize (H ltac:(vm_compute; reflexivity)).
  specialize (H ltac:(vm_compute; reflexivity)).
  specialize (H ltac:(vm_compute; reflexivity)).
  specialize (H ltac:(vm_compute; reflexivity)).
  specialize (H ltac:(vm_compute; discriminate)).
  rewrite H. reflexivity.
Defined.

(** ** What a round leaves alone *)

Lemma same_config_refl r : same_config r r.
Proof. repeat split. Qed.

Lemma same_config_trans r1 r2 r3 :
  same_config r1 r2 -> same_config r2 r3 -> same_config r1 r3.
Proof.
  intros (A1 & A2 & A3) (B1 & B2 & B3). repeat split; congruence.
Qed.

Lemma only_acqf_changed_refl T s : only_acqf_changed T s s.
Proof.
  repeat split; auto. intros l r Hr. exists r.
  split; [exact Hr|]. split; [apply same_config_refl|reflexivity].
Qed.

Lemma only_acqf_changed_trans T s1 s2 s3 :
  only_acqf_changed T s1 s2 -> only_acqf_changed T s2 s3 ->
  only_acqf_changed T s1 s3.
Proof.
  intros (L1 & H1 & W1 & O1) (L2 & H2 & W2 & O2).
  split; [congruence|]. split; [|split; [congruence|lia]].
  intros l r Hr.
  destruct (H1 l r Hr) as (r1 & Hr1 & C1 & E1).
  destruct (H2 l r1 Hr1) as (r2 & Hr2 & C2 & E2).
  exists r2. split; [exact Hr2|].
  split; [exact (same_config_trans _ _ _ C1 C2)|].
  intros Hn. rewrite (E2 Hn). exact (E1 Hn).
Qed.

Lemma only_acqf_changed_weaken (T T' : loc -> Prop) s s' :
  (forall l, T l -> T' l) ->
  only_acqf_changed T s s' -> only_acqf_changed T' s s'.
Proof.
  intros HT (L & H & W & O).
  split; [exact L|]. split; [|split; [exact W|exact O]].
  intros l r Hr. destruct (H l r Hr) as (r' & Hr' & C & E).
  exists r'. split; [exact Hr'|]. split; [exact C|].
  intros Hn. apply E. intros Hl. exact (Hn (HT l Hl)).
Qed.

(** A state that differs only in the random state and the log. *)
Lemma only_acqf_changed_same_store T s s' :
  heap s' = heap s -> warnings s' = warnings s ->
  (next_oid s <= next_oid s')%nat ->
  only_acqf_changed T s s'.
Proof.
  intros Hh Hw Ho. split; [now rewrite Hh|].
  split; [|split; [exact Hw|exact Ho]].
  intros l r Hr. exists r. rewrite Hh.
  split; [exact Hr|]. split; [apply same_config_refl|reflexivity].
Qed.

Section Frame.
Context {collab : Collaborators}.
Variable T : loc -> Prop.

Lemma frames_bind {A B} (c : M A) (k : A -> M B) :
  frames T c -> (forall a, frames T (k a)) -> frames T (bind c k).
Proof.
  intros Hc Hk s. unfold bind. specialize (Hc s).
  destruct (c s) as [[a|e] s1]; cbn in Hc; [|exact Hc].
  exact (only_acqf_changed_trans _ _ _ _ Hc (Hk a s1)).
Qed.

Lemma frames_same_store {A} (c : M A) :
  (forall s, heap (snd (c s)) = heap s /\
             warnings (snd (c s)) = warnings s /\
             (next_oid s <= next_oid (snd (c s)))%nat) ->
  frames T c.
Proof.
  intros H s. destruct (H s) as (Hh & Hw & Ho).
  now apply only_acqf_changed_same_store.
Qed.

Lemma frames_ret {A} (a : A) : frames T (ret a).
Proof. apply frames_same_store. intros s. cbn. auto. Qed.

Lemma frames_raise {A} e : frames T (@raise A e).
Proof. apply frames_same_store. intros s. cbn. auto. Qed.

Lemma frames_lift {A} (r : Result A) : frames T (lift r).
Proof. apply frames_same_store. intros s. cbn. auto. Qed.

Lemma frames_log e : frames T (log e).
Proof. apply frames_same_store. intros s. cbn. auto. Qed.

Lemma frames_fresh_oid : frames T fresh_oid.
Proof. apply frames_same_store. intros s. cbn. auto. Qed.

Lemma frames_with_rng {A} (f : RNG -> Result A * RNG) : frames T (with_rng f).
Proof.
  apply frames_same_store. intros s. unfold with_rng.
  destruct (f (rng s)). cbn. auto.
Qed.

Lemma frames_deref l : frames T (deref l).
Proof.
  apply frames_same_store. intros s. unfold deref.
  destruct (heap s !! l); cbn; auto.
Qed.

Lemma frames_set_acquisition_function l a :
  T l -> frames T (set_acquisition_function l a).
Proof.
  intros Hl s. unfold set_acquisition_function.
  destruct (heap s !! l) as [r|] eqn:Hr; cbn;
    [|apply only_acqf_changed_refl].
  unfold only_acqf_changed. cbn.
  split; [apply length_insert|]. split; [|split; [reflexivity|lia]].
  intros l' r' Hr'.
  destruct (decide (l = l')) as [<-|Hne].
  - rewrite Hr in Hr'. inversion Hr'; subst r'.
    eexists. split; [apply list_lookup_insert_eq; eauto using lookup_lt_Some|].
    split; [repeat split|]. intros Hn. contradiction.
  - exists r'. rewrite list_lookup_insert_ne by exact Hne.
    split; [exact Hr'|]. split; [apply same_config_refl|reflexivity].
Qed.

Lemma frames_new_PartialAcquisitionFunction a p b :
  frames T (new_PartialAcquisitionFunction a p b).
Proof.
  apply frames_bind; [apply frames_fresh_oid|]. intros o. apply frames_ret.
Qed.

Lemma frames_setup l searchspace train_x train_y :
  T l -> frames T (setup_acquisition_function l searchspace train_x train_y).
Proof.
  intros Hl. unfold setup_acquisition_function.
  apply frames_bind; [apply frames_log|]. intros _.
  apply frames_bind; [apply frames_deref|]. intros r.
  apply frames_bind; [apply frames_with_rng|]. intros model.
  apply frames_bind; [apply frames_fresh_oid|]. intros o.
  now apply frames_set_acquisition_function.
Qed.

Lemma frames_pin_continuous_point self searchspace train_x train_y b :
  (b = true -> T (disc_recommender self)) ->
  frames T (pin_continuous_point self searchspace train_x train_y b).
Proof.
  intros Hb. unfold pin_continuous_point, call_samples_random,
    call_get_candidates.
  apply frames_bind.
  { apply frames_bind; [apply frames_log|]. intros _. apply frames_with_rng. }
  intros cp. apply frames_bind.
  { apply frames_bind; [apply frames_log|]. intros _. apply frames_lift. }
  intros cands. apply frames_bind; [|intros _; apply frames_ret].
  destruct b; [|apply frames_ret].
  apply frames_bind; [apply frames_setup; auto|]. intros _.
  apply frames_bind; [apply frames_deref|]. intros dr.
  apply frames_bind; [apply frames_new_PartialAcquisitionFunction|].
  intros a. apply frames_set_acquisition_function; auto.
Qed.

Lemma frames_call_recommend_discrete l sub candidates_comp batch_size :
  frames T (call_recommend_discrete l sub candidates_comp batch_size).
Proof.
  unfold call_recommend_discrete.
  apply frames_bind; [apply frames_deref|]. intros r.
  apply frames_bind; [apply frames_log|]. intros _. apply frames_with_rng.
Qed.

Lemma frames_call_recommend_continuous l sub batch_size :
  frames T (call_recommend_continuous l sub batch_size).
Proof.
  unfold call_recommend_continuous.
  apply frames_bind; [apply frames_deref|]. intros r.
  apply frames_bind; [apply frames_log|]. intros _. apply frames_with_rng.
Qed.

Lemma frames_pin_discrete_point self searchspace train_x train_y idx :
  T (cont_recommender self) ->
  frames T (pin_discrete_point self searchspace train_x train_y idx).
Proof.
  intros Hc. unfold pin_discrete_point, df_sample_one.
  apply frames_bind; [apply frames_lift|]. intros selected.
  apply frames_bind.
  { apply frames_bind; [apply frames_log|]. intros _.
    destruct (nrows selected); [apply frames_raise|].
    apply frames_bind; [apply frames_with_rng|]. intros k. apply frames_ret. }
  intros disc_part.
  apply frames_bind; [apply frames_setup; auto|]. intros _.
  apply frames_bind; [apply frames_deref|]. intros cr.
  apply frames_bind; [apply frames_new_PartialAcquisitionFunction|].
  intros a. apply frames_set_acquisition_function; auto.
Qed.

Lemma frames_hybrid_blocks self searchspace batch_size train_x train_y b :
  (b = true -> T (disc_recommender self)) ->
  T (cont_recommender self) ->
  frames T (hybrid_blocks self searchspace batch_size train_x train_y b).
Proof.
  intros Hb Hc. unfold hybrid_blocks.
  apply frames_bind; [now apply frames_pin_continuous_point|]. intros cc.
  apply frames_bind; [apply frames_call_recommend_discrete|]. intros idx.
  apply frames_bind; [now apply frames_pin_discrete_point|]. intros _.
  apply frames_bind; [apply frames_call_recommend_continuous|]. intros rc.
  apply frames_lift.
Qed.

End Frame.

Section Invariants.
Context {collab : Collaborators}.

(** The frame of [recommend] on the hybrid path, whatever the object
    behind the discrete sub-recommender. *)
Lemma recommend_frames self searchspace batch_size train_x train_y s :
  hybrid_path searchspace ->
  only_acqf_changed
    (fun l => l = disc_recommender self \/ l = cont_recommender self)
    s (snd (recommend self searchspace batch_size train_x train_y s)).
Proof.
  intros Ht.
  destruct (heap s !! disc_recommender self) as [d|] eqn:Hd.
  - destruct (Pure.cls d) eqn:Hc.
    + assert (Hs : supported d) by (now left).
      rewrite (recommend_hybrid_blocks _ _ _ _ _ _ _ Hd Hs Ht).
      apply frames_hybrid_blocks; auto.
    + assert (Hs : supported d) by (now right).
      rewrite (recommend_hybrid_blocks _ _ _ _ _ _ _ Hd Hs Ht).
      apply frames_hybrid_blocks; auto.
    + rewrite (recommend_unsupported _ _ _ _ _ _ _ Hd Hc).
      apply only_acqf_changed_refl.
  - unfold recommend, bind, deref. rewrite Hd.
    apply only_acqf_changed_refl.
Qed.

(** The initialiser hands back an orchestrator whose discrete
    sub-recommender carries its flags. *)
Lemma init_synced allow_repeated allow_measured disc cont s d self' s' :
  heap s !! disc = Some d ->
  __init__ allow_repeated allow_measured disc cont s = (Ok self', s') ->
  synced self' s' /\
  allow_repeated_recommendations self' = allow_repeated /\
  allow_recommending_already_measured self' = allow_measured.
Proof.
  intros Hd. unfold __init__.
  set (self := {| allow_repeated_recommendations := allow_repeated;
                  allow_recommending_already_measured := allow_measured;
                  disc_recommender := disc; cont_recommender := cont |}).
  rewrite (post_init_cases self s d Hd). cbv zeta.
  cbn [allow_recommending_already_measured allow_repeated_recommendations
       self].
  destruct (Bool.eqb allow_measured
              (Pure.allow_recommending_already_measured d)) eqn:E1;
    destruct (Bool.eqb allow_repeated
                (Pure.allow_repeated_recommendations d)) eqn:E2;
    cbn [negb]; try apply eqb_prop in E1; try apply eqb_prop in E2;
    intros H; inversion H; subst; clear H; (split; [|split; reflexivity]).
  - exists d. auto.
  - eexists. split; [apply (list_lookup_middle (heap s) []); reflexivity|].
    cbn. auto.
  - eexists. split; [apply (list_lookup_middle (heap s) []); reflexivity|].
    cbn. auto.
  - eexists. split.
    + apply (list_lookup_middle (heap s ++ [_]) []).
      rewrite length_app. cbn. lia.
    + cbn. auto.
Qed.

(** X8: the initialiser hands back an orchestrator whose discrete
    sub-recommender carries the flags it was given, and every [recommend]
    on the hybrid path that starts from such a state ends in such a state,
    whatever its outcome, so that the flags stay with the sub-recommender
    through any number of rounds.  In each of these rounds the discrete
    search routine is asked only about a recommender object with these
    flags: exchanging the routine for one that agrees with it on the
    objects carrying the orchestrator's flags, and does anything else on
    the others, leaves the outcome and the final state of [recommend] as
    they are. *)
Theorem discrete_search_runs_with_orchestrator_flags
    allow_repeated allow_measured disc cont s0 d self s :
  heap s0 !! disc = Some d ->
  __init__ allow_repeated allow_measured disc cont s0 = (Ok self, s) ->
  synced self s /\
  allow_repeated_recommendations self = allow_repeated /\
  allow_recommending_already_measured self = allow_measured /\
  forall s1 searchspace batch_size train_x train_y,
    synced self s1 ->
    hybrid_path searchspace ->
    synced self
      (snd (recommend self searchspace batch_size train_x train_y s1)) /\
    forall search',
      (forall r sub candidates_comp n g,
         Pure.allow_repeated_recommendations r = allow_repeated ->
         Pure.allow_recommending_already_measured r = allow_measured ->
         search' r sub candidates_comp n g
         = _recommend_discrete r sub candidates_comp n g) ->
      recommend (collab := with_discrete_search collab search') self
        searchspace batch_size train_x train_y s1
      = recommend self searchspace batch_size train_x train_y s1.
Proof.
  intros Hd Hinit.
  destruct (init_synced _ _ _ _ _ _ _ _ Hd Hinit) as (Hsync & <- & <-).
  split; [exact Hsync|]. split; [reflexivity|]. split; [reflexivity|].
  intros s1 searchspace batch_size train_x train_y (d' & Hd' & F1 & F2) Ht.
  split.
  - destruct (recommend_frames self searchspace batch_size train_x train_y
                s1 Ht) as (_ & H & _).
    destruct (H _ _ Hd') as (r' & Hr' & (_ & C2 & C3) & _).
    exists r'. split; [exact Hr'|]. split; congruence.
  - intros search' Hagree.
    assert (Hblocks :
              hybrid_blocks (collab := with_discrete_search collab search')
                self searchspace batch_size train_x train_y
                (Pure.isinstance d' BayesianRecommender) s1
              = hybrid_blocks self searchspace batch_size train_x train_y
                  (Pure.isinstance d' BayesianRecommender) s1).
    { unfold hybrid_blocks.
      apply bind_cong; [reflexivity|]. intros cc s2 Hpin.
      pose proof (frames_pin_continuous_point (fun _ => True) self
                    searchspace train_x train_y
                    (Pure.isinstance d' BayesianRecommender) (fun _ => I) s1)
        as (_ & H & _).
      rewrite Hpin in H. cbn in H.
      destruct (H _ _ Hd') as (d1 & Hd1 & (_ & C2 & C3) & _).
      apply bind_cong; [|reflexivity].
      rewrite (call_recommend_discrete_run
                 (collab := with_discrete_search collab search')
                 _ _ _ _ _ _ Hd1),
              (call_recommend_discrete_run _ _ _ _ _ _ Hd1).
      cbn [_recommend_discrete with_discrete_search].
      rewrite Hagree by congruence. reflexivity. }
    destruct (Pure.cls d') eqn:Hc.
    + assert (Hs : supported d') by (now left).
      rewrite (recommend_hybrid_blocks
                 (collab := with_discrete_search collab search')
                 _ _ _ _ _ _ _ Hd' Hs Ht),
              (recommend_hybrid_blocks _ _ _ _ _ _ _ Hd' Hs Ht).
      exact Hblocks.
    + assert (Hs : supported d') by (now right).
      rewrite (recommend_hybrid_blocks
                 (collab := with_discrete_search collab search')
                 _ _ _ _ _ _ _ Hd' Hs Ht),
              (recommend_hybrid_blocks _ _ _ _ _ _ _ Hd' Hs Ht).
      exact Hblocks.
    + rewrite (recommend_unsupported
                 (collab := with_discrete_search collab search')
                 _ _ _ _ _ _ _ Hd' Hc),
              (recommend_unsupported _ _ _ _ _ _ _ Hd' Hc).
      reflexivity.
Qed.

(** The initialiser keeps the class of the discrete sub-recommender. *)
Lemma init_keeps_class allow_repeated allow_measured disc cont s d :
  heap s !! disc = Some d ->
  exists self' s' d',
    __init__ allow_repeated allow_measured disc cont s = (Ok self', s') /\
    heap s' !! disc_recommender self' = Some d' /\
    Pure.cls d' = Pure.cls d.
Proof.
  intros Hd. unfold __init__.
  set (self := {| allow_repeated_recommendations := allow_repeated;
                  allow_recommending_already_measured := allow_measured;
                  disc_recommender := disc; cont_recommender := cont |}).
  rewrite (post_init_cases self s d Hd). cbv zeta.
  destruct (negb _); destruct (negb _).
  - eexists _, _, _. split; [reflexivity|]. cbn. split.
    + apply (list_lookup_middle (heap s ++ [_]) []).
      rewrite length_app. cbn. lia.
    + reflexivity.
  - eexists _, _, _. split; [reflexivity|]. cbn. split.
    + apply (list_lookup_middle (heap s) []). reflexivity.
    + reflexivity.
  - eexists _, _, _. split; [reflexivity|]. cbn. split.
    + apply (list_lookup_middle (heap s) []). reflexivity.
    + reflexivity.
  - exists self, s, d. auto.
Qed.

(** X17: construction does not check the capability of the discrete
    sub-recommender: with an object that is neither Bayesian nor
    non-predictive the initialiser still returns an orchestrator, and it is
    every later [recommend], on any space, that raises
    [NotImplementedError], leaving the state as it is. *)
Theorem unsupported_recommender_fails_only_at_recommend
    allow_repeated allow_measured disc cont s d :
  heap s !! disc = Some d ->
  ~ supported d ->
  exists self' s',
    __init__ allow_repeated allow_measured disc cont s = (Ok self', s') /\
    forall searchspace batch_size train_x train_y,
      recommend self' searchspace batch_size train_x train_y s'
      = (Raise NotImplementedError, s').
Proof.
  intros Hd Hs.
  destruct (init_keeps_class allow_repeated allow_measured disc cont s d Hd)
    as (self' & s' & d' & Hinit & Hd' & Hc).
  exists self', s'. split; [exact Hinit|].
  intros searchspace batch_size train_x train_y.
  apply (recommend_unsupported _ _ _ _ _ _ _ Hd').
  rewrite Hc. now apply not_supported_other.
Qed.

End Invariants.

(** ** The rows of the batch and of the pin *)

Lemma zip_rows_members (a b : list (list Cell)) :
  Forall (fun row => exists r q, row = r ++ q /\ In r a /\ In q b)
    (zip_rows a b).
Proof.
  revert b. induction a as [|r a IH]; intros [|q b]; cbn; try constructor.
  - exists r, q. cbn. auto.
  - eapply List.Forall_impl; [|apply IH].
    intros row (r' & q' & -> & Hr & Hq). exists r', q'. cbn. auto.
Qed.

Section Rows.
Context {collab : Collaborators}.

(** X6: every batch that a round on the hybrid path returns is the rows
    of the experimental representation under the labels that the discrete
    search routine returned in this round (run by the discrete
    sub-recommender on the computational candidates of the pool), glued
    row by row to the frame that the continuous search routine returned
    (run by the continuous sub-recommender as the round leaves it):
    each row is a row of the experimental representation followed by a
    row of the continuous result, the two halves have the same number of
    rows, and no cell is missing unless one was missing in a half. *)
Theorem returned_batch_is_row_wise
    self searchspace batch_size train_x train_y s d rec_exp s' :
  heap s !! disc_recommender self = Some d ->
  supported d ->
  hybrid_path searchspace ->
  recommend self searchspace batch_size train_x train_y s = (Ok rec_exp, s') ->
  exists disc_rec_idx rec_disc_exp rec_cont,
    (exists candidates_exp candidates_comp s1 d1 g2,
       get_candidates (discrete searchspace) true true
       = Ok (candidates_exp, candidates_comp) /\
       heap s1 !! disc_recommender self = Some d1 /\
       _recommend_discrete d1 (discrete searchspace) candidates_comp
         batch_size (rng s1) = (Ok disc_rec_idx, g2) /\
       In (CallRecommendDiscrete (disc_recommender self)
             (Pure._acquisition_function d1) batch_size) (calls s')) /\
    df_loc (exp_rep (discrete searchspace)) disc_rec_idx = Ok rec_disc_exp /\
    (exists c g g',
       heap s' !! cont_recommender self = Some c /\
       _recommend_continuous c (continuous searchspace) batch_size g
       = (Ok rec_cont, g')) /\
    nrows rec_cont = nrows rec_disc_exp /\
    index rec_exp = index rec_disc_exp /\
    Forall (fun l => In l disc_rec_idx) (index rec_exp) /\
    columns rec_exp
    = columns (exp_rep (discrete searchspace)) ++ columns rec_cont /\
    rows rec_exp = zip_rows (rows rec_disc_exp) (rows rec_cont) /\
    nrows rec_exp = nrows rec_cont /\
    Forall (fun row =>
              exists r q,
                row = r ++ q /\
                In r (rows (exp_rep (discrete searchspace))) /\
                In q (rows rec_cont))
      (rows rec_exp) /\
    (no_missing (exp_rep (discrete searchspace)) -> no_missing rec_cont ->
     no_missing rec_exp).
Proof.
  intros Hd Hs Ht Hrun.
  destruct (hybrid_run_inv _ _ _ _ _ _ _ _ _ Hd Hs Ht Hrun)
    as (cc0 & s10 & d1 & idx0 & g2 & selected0 & row0 & r0 & model0 & rc0
        & Hpin0 & Hd1 & Hsearch & _ & _ & _ & _ & _ & _ & _ & Hcalls).
  rewrite (recommend_hybrid_blocks _ _ _ _ _ _ _ Hd Hs Ht) in Hrun.
  apply hybrid_blocks_inv in Hrun
    as (cc & s1 & idx & s2 & s3 & rc & Hpin & Hdisc & _ & Hcont & Hglue).
  assert (E : cc0 = cc /\ s10 = s1)
    by (rewrite Hpin in Hpin0; now inversion Hpin0).
  destruct E as [-> ->]. clear Hpin0.
  apply call_recommend_discrete_inv in Hdisc
    as (d1' & g2' & Hd1' & Hsearch' & _).
  assert (E : d1' = d1) by (rewrite Hd1 in Hd1'; now inversion Hd1').
  subst d1'.
  assert (E : idx0 = idx)
    by (rewrite Hsearch in Hsearch'; now inversion Hsearch').
  subst idx0. clear Hsearch'.
  apply pin_continuous_point_inv in Hpin as (cp & g1 & ce & _ & Hce & _).
  apply call_recommend_continuous_inv in Hcont as (c & g' & Hcl & Hc & Hs').
  unfold glue_solutions in Hglue.
  destruct (df_loc (exp_rep (discrete searchspace)) idx) as [rde|e] eqn:Hloc;
    [|discriminate Hglue].
  destruct (df_loc_inv _ _ _ Hloc) as (Hcols & Hlen & Hlab & Hmem).
  unfold set_index in Hglue.
  destruct (Nat.eqb_spec (length (index rde)) (nrows rc)) as [Hn|Hn];
    [|discriminate Hglue].
  unfold concat_axis1 in Hglue. cbn in Hglue.
  rewrite index_eqb_refl in Hglue. inversion Hglue; subst rec_exp; clear Hglue.
  assert (Hrows : nrows rc = nrows rde) by (unfold nrows in *; congruence).
  exists idx, rde, rc. cbn.
  split.
  { exists ce, cc, s1, d1, g2. split; [exact Hce|]. split; [exact Hd1|].
    split; [exact Hsearch|]. rewrite Hcalls, in_app_iff. right. now left. }
  split; [exact Hloc|].
  split; [exists c, (rng s3), g'; split; [now rewrite Hs'|exact Hc]|].
  split; [exact Hrows|]. split; [reflexivity|]. split; [exact Hlab|].
  split; [now rewrite Hcols|]. split; [reflexivity|].
  split; [unfold nrows in *; cbn; rewrite zip_rows_length; congruence|].
  split.
  - eapply List.Forall_impl; [|apply zip_rows_members].
    intros row (r & q & -> & Hr & Hq). exists r, q.
    split; [reflexivity|]. split; [|exact Hq].
    rewrite Forall_forall in Hmem. apply Hmem. now apply list_elem_of_In.
  - intros Hexp Hrc. unfold no_missing. cbn.
    apply (zip_rows_Forall (Forall (fun c : Cell => c <> None))
             (Forall (fun c : Cell => c <> None))).
    + intros x y Hx Hy. apply Forall_app. auto.
    + exact (Forall_of_members _ _ _ Hexp Hmem).
    + exact Hrc.
Qed.

(** X10: the discrete point that a successful round has pinned for the
    continuous search is a row of the computational representation of the
    discrete subspace, with one value per computational column. *)
Theorem pinned_discrete_point_is_a_candidate
    self searchspace batch_size train_x train_y s d rec_exp s' :
  heap s !! disc_recommender self = Some d ->
  supported d ->
  hybrid_path searchspace ->
  frame_ok (comp_rep (discrete searchspace)) ->
  recommend self searchspace batch_size train_x train_y s = (Ok rec_exp, s') ->
  exists c o base row,
    heap s' !! cont_recommender self = Some c /\
    Pure._acquisition_function c
    = Some (PartialAcquisitionFunction o base [[row]] true) /\
    In row (rows (comp_rep (discrete searchspace))) /\
    length row = ncols (comp_rep (discrete searchspace)).
Proof.
  intros Hd Hs Ht [_ Hok] Hrun.
  destruct (hybrid_run_inv _ _ _ _ _ _ _ _ _ Hd Hs Ht Hrun)
    as (cc & s1 & d1 & idx & g2 & selected & row & r & model & rc & _ & _ & _
        & Hsel & Hin & Hr & _ & Hheap & _).
  destruct (df_loc_inv _ _ _ Hsel) as (_ & _ & _ & Hmem).
  assert (Hrow : In row (rows (comp_rep (discrete searchspace)))).
  { rewrite Forall_forall in Hmem. apply Hmem. now apply list_elem_of_In. }
  eexists _, _, _, row. split.
  { rewrite Hheap. apply list_lookup_insert_eq.
    exact (lookup_lt_Some _ _ _ Hr). }
  split; [reflexivity|]. split; [exact Hrow|].
  rewrite Forall_forall in Hok. apply Hok. now apply list_elem_of_In.
Qed.

End Rows.

(** ** Objects made at construction *)

(** X9: the hook makes one copy of the discrete sub-recommender for each
    flag that differs, none otherwise; every copy is of the class of the
    original; the orchestrator ends up with the last copy, so that when
    both flags differ the first copy is referred to by nothing; the random
    state, the call log and the counter of object identities are not
    touched. *)
Theorem post_init_copies_once_per_flag self s d :
  heap s !! disc_recommender self = Some d ->
  let n :=
    (Nat.b2n (negb (Bool.eqb (allow_recommending_already_measured self)
                      (Pure.allow_recommending_already_measured d)))
     + Nat.b2n (negb (Bool.eqb (allow_repeated_recommendations self)
                        (Pure.allow_repeated_recommendations d))))%nat in
  exists self' s' copies,
    __attrs_post_init__ self s = (Ok self', s') /\
    heap s' = heap s ++ copies /\
    length copies = n /\
    Forall (fun r => Pure.cls r = Pure.cls d) copies /\
    (n <> O -> disc_recommender self' = (length (heap s) + n - 1)%nat) /\
    (n = O -> disc_recommender self' = disc_recommender self) /\
    rng s' = rng s /\ calls s' = calls s /\ next_oid s' = next_oid s.
Proof.
  intros Hd. cbv zeta. rewrite (post_init_cases self s d Hd). cbv zeta.
  destruct (Bool.eqb (allow_recommending_already_measured self)
              (Pure.allow_recommending_already_measured d));
    destruct (Bool.eqb (allow_repeated_recommendations self)
                (Pure.allow_repeated_recommendations d)); cbn [negb Nat.b2n].
  - exists self, s, []. rewrite app_nil_r.
    repeat split; auto; try constructor. cbn. intros H. now contradiction H.
  - eexists _, _, [_]. split; [reflexivity|]. cbn.
    repeat split; auto; try lia; repeat constructor.
  - eexists _, _, [_]. split; [reflexivity|]. cbn.
    repeat split; auto; try lia; repeat constructor.
  - eexists _, _, [_; _]. split; [reflexivity|]. cbn.
    rewrite <- app_assoc. cbn.
    repeat split; auto; try lia; repeat constructor.
Qed.

(** * The Sphinx configuration *)

Module ConfFacts.
Import Conf.

Lemma prefix_spec (n h : string) :
  String.prefix n h = true <-> exists post, h = (n ++ post)%string.
Proof.
  revert h. induction n as [|a n IH]; intros [|b h]; cbn.
  - split; [intros _; now exists EmptyString|reflexivity].
  - split; [intros _; now exists (String b h)|reflexivity].
  - split; [discriminate|intros [post H]; discriminate H].
  - destruct (Ascii.ascii_dec a b) as [->|Hne].
    + rewrite IH. split; intros [post H]; exists post.
      * now rewrite H.
      * now inversion H.
    + split; [discriminate|]. intros [post H]. inversion H. congruence.
Qed.

(** [contains] is the substring test. *)
Lemma contains_spec (n h : string) :
  contains n h = true <-> exists pre post, h = (pre ++ n ++ post)%string.
Proof.
  induction h as [|b h IH]; cbn [contains]; rewrite orb_true_iff, prefix_spec.
  - split.
    + intros [[post H]|H]; [|discriminate H]. now exists EmptyString, post.
    + intros (pre & post & H). left. destruct pre; [|discriminate H].
      now exists post.
  - rewrite IH. split.
    + intros [[post H]|(pre & post & H)].
      * now exists EmptyString, post.
      * exists (String b pre), post. cbn. now rewrite H.
    + intros (pre & post & H). destruct pre as [|c pre].
      * left. now exists post.
      * right. exists pre, post. now inversion H.
Qed.

Lemma list_index_None (x : string) (l : list string) :
  list_index x l = None <-> ~ In x l.
Proof.
  induction l as [|y l IH]; cbn.
  - split; [intros _ []|reflexivity].
  - destruct (String.eqb_spec y x) as [->|Hne].
    + split; [discriminate|]. intros H. exfalso. apply H. now left.
    + destruct (list_index x l) as [i|] eqn:E.
      * split; [discriminate|]. intros H. exfalso.
        assert (Hn : ~ In x l) by (intros Hin; apply H; now right).
        apply IH in Hn. discriminate Hn.
      * split; [|reflexivity]. intros _ [H|H]; [congruence|].
        exact (proj1 IH eq_refl H).
Qed.

Lemma list_index_first (x : string) (pre rest : list string) :
  ~ In x pre -> list_index x (pre ++ x :: rest) = Some (length pre).
Proof.
  induction pre as [|y pre IH]; cbn; intros H.
  - now rewrite String.eqb_refl.
  - destruct (String.eqb_spec y x) as [->|Hne]; [exfalso; auto|].
    rewrite IH by tauto. reflexivity.
Qed.

(** X12: evaluating [private_members] fails with [ValueError] exactly
    when no argument of the command line is [-D]. *)
Theorem private_members_needs_a_define (argv : list string) :
  private_members argv = inl ValueError <-> ~ In "-D"%string argv.
Proof.
  unfold private_members. rewrite <- list_index_None.
  destruct (list_index "-D" argv) as [i|]; [|tauto].
  split; [|discriminate].
  destruct (nth_error argv (i + 1)); discriminate.
Qed.

(** X13: the argument that follows the first [-D] decides alone: the
    result is whether that argument has [True] anywhere in it, whatever
    comes later on the command line, also further [-D] options; when the
    first [-D] is the last argument, the evaluation fails with
    [IndexError]. *)
Theorem private_members_first_define_decides (pre : list string) :
  ~ In "-D"%string pre ->
  (forall a rest,
     private_members (pre ++ "-D"%string :: a :: rest)
     = inr (contains "True" a)) /\
  private_members (pre ++ ["-D"%string]) = inl IndexError.
Proof.
  intros Hpre. unfold private_members. split; [intros a rest|].
  - rewrite (list_index_first _ _ _ Hpre).
    replace (length pre + 1)%nat with (length pre + 1 + 0)%nat by lia.
    rewrite (nth_error_app2 pre) by lia.
    replace (length pre + 1 + 0 - length pre)%nat with 1%nat by lia.
    reflexivity.
  - rewrite (list_index_first _ _ _ Hpre).
    rewrite (proj2 (nth_error_None _ _)); [reflexivity|].
    rewrite length_app. cbn. lia.
Qed.

(** X14: the hint is appended, after the lines that are there, exactly
    for a name with [__init__] anywhere in it and a docstring that is not
    empty; in every other case, an empty docstring among them, the lines
    are left as they are. *)
Theorem init_hint_appended_iff (name : string) (lines : list string) :
  ((exists pre post, name = (pre ++ "__init__" ++ post)%string) /\
   lines <> [] ->
   autodoc_process_docstring name lines = lines ++ [init_hint]) /\
  (~ ((exists pre post, name = (pre ++ "__init__" ++ post)%string) /\
      lines <> []) ->
   autodoc_process_docstring name lines = lines).
Proof.
  unfold autodoc_process_docstring. rewrite <- contains_spec.
  destruct (contains "__init__" name); destruct lines as [|l lines]; cbn;
    split; try reflexivity; try tauto; intros H.
  - exfalso. apply H. split; [reflexivity|discriminate].
  - destruct H as [H _]. discriminate H.
Qed.

(** X15: the hook is not idempotent: run twice on the docstring of an
    [__init__], it leaves the hint twice. *)
Theorem init_hint_is_appended_again (pre post : string)
    (lines : list string) :
  lines <> [] ->
  let name := (pre ++ "__init__" ++ post)%string in
  autodoc_process_docstring name (autodoc_process_docstring name lines)
  = lines ++ [init_hint; init_hint].
Proof.
  intros Hne name.
  assert (Hc : contains "__init__" name = true).
  { apply contains_spec. now exists pre, post. }
  unfold autodoc_process_docstring. rewrite Hc.
  destruct lines as [|l lines]; [congruence|].
  cbn [length Nat.ltb Nat.leb andb].
  rewrite length_app. cbn [length].
  replace (0 <? S (length lines) + 1)%nat with true
    by (symmetry; apply Nat.ltb_lt; lia).
  cbn. now rewrite <- app_assoc.
Qed.

(** X16: an exception escapes the two [try] blocks exactly when removing
    the output directory fails with something other than
    [FileNotFoundError], in which case sphinx-apidoc is not run at all, or
    when sphinx-apidoc raises something that is not an [Exception]; a
    missing directory is no obstacle.  A line is printed exactly when the
    directory was removed or was missing and sphinx-apidoc raised an
    [Exception]: the line is the fixed message, a line feed and the text
    of that exception, it is printed once, after the two calls, and no
    exception escapes. *)
Theorem apidoc_escape_iff
    (rmtree : string -> option PyException)
    (apidoc_main : list string -> option PyException)
    (output_dir baybe_module_dir : string) (e : PyException)
    (text : string) :
  let argv :=
    (["--implicit-namespaces"; "-M"; "-T"; "-e"; "-f"; "-o"; output_dir;
      baybe_module_dir; baybe_module_dir ++ "/__init__.py"])%string in
  (fst (run_apidoc rmtree apidoc_main output_dir baybe_module_dir) = Some e
   <->
   (rmtree output_dir = Some e /\ is_FileNotFoundError e = false /\
    snd (run_apidoc rmtree apidoc_main output_dir baybe_module_dir)
    = [Rmtree output_dir]) \/
   ((rmtree output_dir = None \/
     exists m, rmtree output_dir = Some (FileNotFoundError m)) /\
    apidoc_main argv = Some e /\ is_Exception e = false)) /\
  (In (Print text)
      (snd (run_apidoc rmtree apidoc_main output_dir baybe_module_dir))
   <->
   (rmtree output_dir = None \/
    exists m, rmtree output_dir = Some (FileNotFoundError m)) /\
   exists e',
     apidoc_main argv = Some e' /\ is_Exception e' = true /\
     text = ("Running `sphinx-apidoc` failed!" ++ newline ++ str e')%string /\
     run_apidoc rmtree apidoc_main output_dir baybe_module_dir
     = (None, [Rmtree output_dir; ApidocMain argv; Print text])).
Proof.
  cbv zeta. split.
  { unfold run_apidoc. cbn [app].
    destruct (rmtree output_dir) as [r|] eqn:Hr.
    - destruct (is_FileNotFoundError r) eqn:Hf.
      + destruct r as [m| | | |]; try discriminate Hf.
        destruct (apidoc_main _) as [a|] eqn:Ha;
          [destruct (is_Exception a) eqn:Hx|]; cbn; split.
        * discriminate.
        * intros [(H & H2 & _)|(_ & H & H')];
            [inversion H; subst; discriminate H2|congruence].
        * intros H. inversion H; subst. right.
          split; [right; now exists m|]. split; [reflexivity|exact Hx].
        * intros [(H & H2 & _)|(_ & H & H')];
            [inversion H; subst; discriminate H2|congruence].
        * discriminate.
        * intros [(H & H2 & _)|(_ & H & H')];
            [inversion H; subst; discriminate H2|discriminate H].
      + cbn. split.
        * intros H. inversion H; subst. left. auto.
        * intros [(H & _)|([H|[m H]] & _)]; [exact H|discriminate H|].
          inversion H; subst. discriminate Hf.
    - destruct (apidoc_main _) as [a|] eqn:Ha;
        [destruct (is_Exception a) eqn:Hx|]; cbn; split.
      + discriminate.
      + intros [(H & _)|(_ & H & H')]; [discriminate H|congruence].
      + intros H. inversion H; subst. right.
        split; [now left|]. split; [reflexivity|exact Hx].
      + intros [(H & _)|(_ & H & H')]; [discriminate H|congruence].
      + discriminate.
      + intros [(H & _)|(_ & H & H')]; discriminate H. }
  assert (Hremoved :
            forall r, rmtree output_dir = Some r ->
                      is_FileNotFoundError r = true ->
                      exists m, rmtree output_dir = Some (FileNotFoundError m)).
  { intros r Hr Hf. destruct r as [m| | | |]; try discriminate Hf.
    now exists m. }
  assert (Hnot :
            forall r, rmtree output_dir = Some r ->
                      is_FileNotFoundError r = false ->
                      ~ (rmtree output_dir = None \/
                         exists m,
                           rmtree output_dir = Some (FileNotFoundError m))).
  { intros r Hr Hf [H|[m H]]; rewrite Hr in H; [discriminate H|].
    inversion H; subst. discriminate Hf. }
  unfold run_apidoc. cbn [app].
  destruct (rmtree output_dir) as [r|] eqn:Hr;
    [destruct (is_FileNotFoundError r) eqn:Hf|].
  - destruct (apidoc_main _) as [a|] eqn:Ha;
      [destruct (is_Exception a) eqn:Hx|]; cbn [fst snd]; split.
    + intros [H|[H|[H|[]]]]; try discriminate H. inversion H; subst text.
      split; [right; exact (Hremoved r eq_refl Hf)|].
      exists a. auto.
    + intros (_ & e' & He' & _ & -> & _). inversion He'; subst e'.
      right. right. now left.
    + intros [H|[H|[]]]; discriminate H.
    + intros (_ & e' & He' & Hx' & _). inversion He'; subst e'. congruence.
    + intros [H|[H|[]]]; discriminate H.
    + intros (_ & e' & He' & _). discriminate He'.
  - cbn [fst snd]. split.
    + intros [H|[]]. discriminate H.
    + intros (H & _). destruct (Hnot r eq_refl Hf H).
  - destruct (apidoc_main _) as [a|] eqn:Ha;
      [destruct (is_Exception a) eqn:Hx|]; cbn [fst snd]; split.
    + intros [H|[H|[H|[]]]]; try discriminate H. inversion H; subst text.
      split; [now left|]. exists a. auto.
    + intros (_ & e' & He' & _ & -> & _). inversion He'; subst e'.
      right. right. now left.
    + intros [H|[H|[]]]; discriminate H.
    + intros (_ & e' & He' & Hx' & _). inversion He'; subst e'. congruence.
    + intros [H|[H|[]]]; discriminate H.
    + intros (_ & e' & He' & _). discriminate He'.
Qed.

End ConfFacts.

(** * The further properties at work *)

Lemma discrete_search_runs_with_orchestrator_flags_witness :
  exists self s,
    __init__ true false 0%nat 1%nat Lab.s0 = (Ok self, s) /\
    synced self
      (snd (recommend (collab := Lab.collab) self Lab.hybrid_space 2
              None None s)) /\
    recommend
      (collab := with_discrete_search Lab.collab
                   (fun r sub candidates_comp n g =>
                      if Pure.allow_repeated_recommendations r
                         && negb (Pure.allow_recommending_already_measured r)
                      then _recommend_discrete (Collaborators := Lab.collab)
                             r sub candidates_comp n g
                      else (Raise ValueError, g)))
      self Lab.hybrid_space 2 None None s
    = recommend (collab := Lab.collab) self Lab.hybrid_space 2 None None s.
Proof.
  assert (Hinit : exists self s,
             __init__ true false 0%nat 1%nat Lab.s0 = (Ok self, s))
    by (eexists _, _; vm_compute; reflexivity).
  destruct Hinit as (self & s & Hinit).
  exists self, s. split; [exact Hinit|].
  destruct (discrete_search_runs_with_orchestrator_flags
              (collab := Lab.collab) true false 0%nat 1%nat Lab.s0
              (Lab.bayesian false true) self s eq_refl Hinit)
    as (Hsync & _ & _ & Hround).
  assert (Ht : hybrid_path Lab.hybrid_space) by (split; discriminate).
  destruct (Hround s Lab.hybrid_space 2 None None Hsync Ht) as (Hs & Hsame).
  split; [exact Hs|].
  apply Hsame. intros r sub cc n g -> ->. reflexivity.
Defined.

Lemma returned_batch_is_row_wise_witness :
  exists rec_exp,
    fst (recommend (collab := Lab.collab) (Lab.naive 0 1) Lab.hybrid_space 2
           None None Lab.s0) = Ok rec_exp /\
    Forall (fun row =>
              exists r q,
                row = r ++ q /\ In r (rows Lab.exp_frame))
      (rows rec_exp).
Proof.
  assert (Hrun : exists rec_exp s',
             recommend (collab := Lab.collab) (Lab.naive 0 1)
               Lab.hybrid_space 2 None None Lab.s0 = (Ok rec_exp, s'))
    by (eexists _, _; vm_compute; reflexivity).
  destruct Hrun as (rec_exp & s' & Hrun).
  assert (Ht : hybrid_path Lab.hybrid_space) by (split; discriminate).
  destruct (returned_batch_is_row_wise (collab := Lab.collab) (Lab.naive 0 1)
              Lab.hybrid_space 2 None None Lab.s0 (Lab.bayesian false true)
              rec_exp s' eq_refl (or_introl eq_refl) Ht Hrun)
    as (idx & rde & rc & _ & _ & _ & _ & _ & _ & _ & _ & _ & Hrows & _).
  exists rec_exp. rewrite Hrun. split; [reflexivity|].
  eapply List.Forall_impl; [|exact Hrows].
  intros row (r & q & H1 & H2 & _). exists r, q. auto.
Defined.

Lemma pinned_discrete_point_is_a_candidate_witness :
  exists c o base row,
    heap (snd (recommend (collab := Lab.collab) (Lab.naive 0 1)
                 Lab.hybrid_space 2 None None Lab.s0)) !! 1%nat = Some c /\
    Pure._acquisition_function c
    = Some (PartialAcquisitionFunction o base [[row]] true) /\
    In row (rows Lab.comp_frame).
Proof.
  assert (Hrun : exists rec_exp s',
             recommend (collab := Lab.collab) (Lab.naive 0 1)
               Lab.hybrid_space 2 None None Lab.s0 = (Ok rec_exp, s'))
    by (eexists _, _; vm_compute; reflexivity).
  destruct Hrun as (rec_exp & s' & Hrun).
  assert (Ht : hybrid_path Lab.hybrid_space) by (split; discriminate).
  assert (Hok : frame_ok (comp_rep (discrete Lab.hybrid_space)))
    by (split; [reflexivity|repeat constructor]).
  destruct (pinned_discrete_point_is_a_candidate (collab := Lab.collab)
              (Lab.naive 0 1) Lab.hybrid_space 2 None None Lab.s0
              (Lab.bayesian false true) rec_exp s' eq_refl
              (or_introl eq_refl) Ht Hok Hrun)
    as (c & o & base & row & Hc & Ha & Hin & _).
  exists c, o, base, row. rewrite Hrun. auto.
Defined.

Lemma post_init_copies_once_per_flag_witness :
  exists self' s' copies,
    __attrs_post_init__
      {| allow_repeated_recommendations := true;
         allow_recommending_already_measured := false;
         disc_recommender := 0%nat; cont_recommender := 1%nat |} Lab.s0
    = (Ok self', s') /\
    heap s' = heap Lab.s0 ++ copies /\
    length copies = 2%nat /\
    disc_recommender self' = 5%nat.
Proof.
  destruct (post_init_copies_once_per_flag
              {| allow_repeated_recommendations := true;
                 allow_recommending_already_measured := false;
                 disc_recommender := 0%nat; cont_recommender := 1%nat |}
              Lab.s0 (Lab.bayesian false true) eq_refl)
    as (self' & s' & copies & H1 & H2 & H3 & _ & H4 & _).
  exists self', s', copies. split; [exact H1|]. split; [exact H2|].
  split; [exact H3|]. apply H4. discriminate.
Defined.

Lemma private_members_first_define_decides_witness :
  Conf.private_members
    ["sphinx-build"; "-b"; "html"; "-D"; "private_members=True"; "-D";
     "other=False"]%string = inr true /\
  Conf.private_members ["sphinx-build"; "-D"]%string = inl Conf.IndexError.
Proof.
  split.
  - apply (proj1 (ConfFacts.private_members_first_define_decides
                    ["sphinx-build"; "-b"; "html"]%string
                    ltac:(intros [H|[H|[H|[]]]]; discriminate H))).
  - apply (proj2 (ConfFacts.private_members_first_define_decides
                    ["sphinx-build"]%string
                    ltac:(intros [H|[]]; discriminate H))).
Defined.

Lemma apidoc_escape_iff_witness :
  Conf.run_apidoc
    (fun _ => Some (Conf.FileNotFoundError "sdk"))
    (fun _ => Some (Conf.Exception "no module")) "sdk" "../baybe"
  = (None,
     [Conf.Rmtree "sdk";
      Conf.ApidocMain
        ["--implicit-namespaces"; "-M"; "-T"; "-e"; "-f"; "-o"; "sdk";
         "../baybe"; "../baybe/__init__.py"]%string;
      Conf.Print ("Running `sphinx-apidoc` failed!" ++ Conf.newline
                  ++ "no module")%string]).
Proof.
  destruct (proj1 (proj2 (ConfFacts.apidoc_escape_iff
                            (fun _ => Some (Conf.FileNotFoundError "sdk"))
                            (fun _ => Some (Conf.Exception "no module"))
                            "sdk" "../baybe" Conf.KeyboardInterrupt
                            ("Running `sphinx-apidoc` failed!"
                             ++ Conf.newline ++ "no module")%string))
              ltac:(vm_compute; auto))
    as (_ & e' & _ & _ & _ & H).
  exact H.
Defined.

Lemma init_hint_is_appended_again_witness :
  Conf.autodoc_process_docstring "baybe.campaign.Campaign.__init__"
    (Conf.autodoc_process_docstring "baybe.campaign.Campaign.__init__"
       ["Method generated by attrs."%string])
  = ["Method generated by attrs."%string; Conf.init_hint; Conf.init_hint].
Proof.
  apply (ConfFacts.init_hint_is_appended_again "baybe.campaign.Campaign." ""
           ["Method generated by attrs."%string]).
  discriminate.
Defined.

Lemma unsupported_recommender_fails_only_at_recommend_witness :
  exists self' s',
    __init__ true true 2%nat 1%nat Lab.s0 = (Ok self', s') /\
    recommend (collab := Lab.collab) self' Lab.continuous_space 3 None None s'
    = (Raise NotImplementedError, s').
Proof.
  destruct (unsupported_recommender_fails_only_at_recommend
              (collab := Lab.collab) true true 2%nat 1%nat Lab.s0
              Lab.other_pure eq_refl)
    as (self' & s' & Hinit & Hrec).
  - intros [H|H]; discriminate H.
  - exists self', s'. split; [exact Hinit|]. apply Hrec.
Defined.
